(** * morlock: widget layout and clipped drawing on a character grid

    A shallow embedding of [morlock.go]: the widgets and their size
    requirements, the size negotiator [fitSize], and the [Pen] with its
    clipping and printing operations over the terminal's cell buffer. *)

From Stdlib Require Import ZArith List String Ascii Bool Lia.
From stdpp Require Import base list.
Import ListNotations.

Set Warnings "-register-all".
Local Open Scope Z_scope.

(** ** Machine integers

    Go's [int] is modelled as [Z]; the code is read for a 64-bit platform,
    where every arithmetic result is reduced to the signed 64-bit range. *)

Module Int.

Definition min_int : Z := - 2 ^ 63.
Definition max_int : Z := 2 ^ 63 - 1.
Definition modulus : Z := 2 ^ 64.

Definition wrap (z : Z) : Z := (z - min_int) mod modulus + min_int.

Definition in_range (z : Z) : Prop := min_int <= z <= max_int.

Definition add (a b : Z) : Z := wrap (a + b).
Definition sub (a b : Z) : Z := wrap (a - b).
Definition mul (a b : Z) : Z := wrap (a * b).

End Int.

Infix "+!" := Int.add (at level 50, left associativity).
Infix "-!" := Int.sub (at level 50, left associativity).
Infix "*!" := Int.mul (at level 40, left associativity).

(** ** Widgets

    The [Widget] interface has six implementations in the package; the
    embedding is the closed sum of them.  A [Label] is a Go string, that is
    a sequence of bytes ([string] here is a list of 8-bit [ascii]). *)

Inductive Widget : Type :=
| Label (t : string)
| Blank (MinWidth MaxWidth MinHeight MaxHeight : Z)
| Tint (Fg Bg : Z) (w : Widget)
| Row (t : list Widget)
| Column (t : list Widget)
| Grid (t : list (list Widget)).

(** [len(s)] of a Go string: its number of bytes. *)
Definition len (s : string) : Z := Z.of_nat (String.length s).

(** The loop shared by [Row.ReqWidth] and [Column.ReqHeight]:
    [min += m; max += n] over the children's requirements. *)
Definition sumReq (reqs : list (Z * Z)) : Z * Z :=
  fold_left (fun acc r => (fst acc +! fst r, snd acc +! snd r)) reqs (0, 0).

(** The loop shared by [Row.ReqHeight] and [Column.ReqWidth]:
    [if m > min { min = m }; if n > max { max = n }]. *)
Definition maxReq (reqs : list (Z * Z)) : Z * Z :=
  fold_left (fun acc r =>
               (if fst r >? fst acc then fst r else fst acc,
                if snd r >? snd acc then snd r else snd acc)) reqs (0, 0).

Fixpoint ReqWidth (w : Widget) : Z * Z :=
  match w with
  | Label t => (len t, len t)
  | Blank mn mx _ _ => (mn, mx)
  | Tint _ _ c => ReqWidth c
  | Row t => sumReq (map ReqWidth t)
  | Column t => maxReq (map ReqWidth t)
  | Grid t =>
      let r := maxReq (map (fun row => sumReq (map ReqWidth row)) t) in
      (fst r +! Z.of_nat (length t), snd r +! Z.of_nat (length t))
  end.

Fixpoint ReqHeight (w : Widget) : Z * Z :=
  match w with
  | Label _ => (1, 1)
  | Blank _ _ mn mx => (mn, mx)
  | Tint _ _ c => ReqHeight c
  | Row t => maxReq (map ReqHeight t)
  | Column t => sumReq (map ReqHeight t)
  | Grid t => sumReq (map (fun row => maxReq (map ReqHeight row)) t)
  end.

Definition Row_ReqWidth (t : list Widget) : Z * Z := ReqWidth (Row t).
Definition Row_ReqHeight (t : list Widget) : Z * Z := ReqHeight (Row t).
Definition Grid_ReqWidth (t : list (list Widget)) : Z * Z := ReqWidth (Grid t).

(** ** The size negotiator *)

Section FitSize.

Context {W : Type}.
Variable sel : W -> Z * Z.

(** The first loop: [sz[i], max[i] = sel(t); n -= sz[i]]. *)
Fixpoint fitInit (n : Z) (t : list W) : Z * list Z * list Z :=
  match t with
  | [] => (n, [], [])
  | w :: t' =>
      let '(n', sz, mx) := fitInit (n -! fst (sel w)) t' in
      (n', fst (sel w) :: sz, snd (sel w) :: mx)
  end.

(** One pass of the inner loop over [max], with [sz] alongside (both
    slices are made with [len(t)] elements): an entry already at its
    maximum is skipped, any other is incremented and charged to [n]. *)
Fixpoint fitPass (mx sz : list Z) (n : Z) (more : bool)
  : list Z * Z * bool :=
  match mx, sz with
  | m :: mx', s :: sz' =>
      if s =? m then
        let '(r, n', more') := fitPass mx' sz' n more in (s :: r, n', more')
      else
        let '(r, n', more') := fitPass mx' sz' (n -! 1) true in
        (s +! 1 :: r, n', more')
  | _, _ => (sz, n, more)
  end.

(** The outer loop [for n > 0 && more]; each unit of [fuel] pays for one
    evaluation of the loop condition. *)
Fixpoint fitLoop (fuel : nat) (mx sz : list Z) (n : Z) (more : bool)
  : option (list Z) :=
  match fuel with
  | O => None
  | S fuel' =>
      if (n >? 0) && more then
        let '(sz', n', more') := fitPass mx sz n false in
        fitLoop fuel' mx sz' n' more'
      else Some sz
  end.

Definition fitSize (fuel : nat) (n : Z) (t : list W) : option (list Z) :=
  let '(n', sz, mx) := fitInit n t in
  fitLoop fuel mx sz n' true.

End FitSize.

(** ** Outcomes

    A Go call either returns, or panics (a slice or index expression out
    of range); [OutOfFuel] is the model's own third case, a loop that was
    given too little fuel. *)

Inductive outcome (A : Type) : Type :=
| Ok (a : A)
| Panic
| OutOfFuel.

Arguments Ok {A} a.
Arguments Panic {A}.
Arguments OutOfFuel {A}.

Definition bind {A B : Type} (c : outcome A) (k : A -> outcome B) : outcome B :=
  match c with
  | Ok a => k a
  | Panic => Panic
  | OutOfFuel => OutOfFuel
  end.

Notation "'do' x <~ c ; k" := (bind c (fun x => k))
  (at level 10, x pattern, c at level 100, k at level 200).

(** ** The terminal backend

    [termbox.Size()] and [termbox.CellBuffer()]: the grid's dimensions and
    its cells, one slice in row-major order that every pen writes into. *)

Record Cell : Type := mkCell { Ch : Z; Fg : Z; Bg : Z }.

Record Screen : Type := mkScreen { sw : Z; sh : Z; cells : list Cell }.

(** A Go slice of the cell buffer: a window on the one backing array. *)
Record Slice : Type := mkSlice { s_off : Z; s_len : Z; s_cap : Z }.

Definition CellBuffer (scr : Screen) : Slice :=
  let n := Z.of_nat (length (cells scr)) in mkSlice 0 n n.

(** [b[a:]] *)
Definition slice_from (b : Slice) (a : Z) : outcome Slice :=
  if (0 <=? a) && (a <=? s_len b)
  then Ok (mkSlice (s_off b + a) (s_len b - a) (s_cap b - a))
  else Panic.

(** [b[:k]] *)
Definition slice_to (b : Slice) (k : Z) : outcome Slice :=
  if (0 <=? k) && (k <=? s_cap b)
  then Ok (mkSlice (s_off b) k (s_cap b))
  else Panic.

(** [b[i] = c] *)
Definition slice_set (b : Slice) (i : Z) (c : Cell) (cs : list Cell)
  : outcome (list Cell) :=
  if (0 <=? i) && (i <? s_len b)
  then Ok (<[Z.to_nat (s_off b + i) := c]> cs)
  else Panic.

(** ** Strings and runes

    [range s] and [utf8.RuneCountInString] decode UTF-8 as the Go
    specification describes: a malformed or truncated sequence is the one
    rune U+FFFD of width one byte. *)

Definition byte_of (c : ascii) : Z := Z.of_nat (nat_of_ascii c).

Definition bytes (s : string) : list Z := map byte_of (list_ascii_of_string s).

Definition RuneError : Z := 65533.

Definition cont (b : Z) : bool := (128 <=? b) && (b <=? 191).

Definition decodeRune (bs : list Z) : Z * nat :=
  match bs with
  | [] => (RuneError, 0%nat)
  | s0 :: rest =>
      if s0 <? 128 then (s0, 1%nat)
      else if (s0 <? 194) || (244 <? s0) then (RuneError, 1%nat)
      else if s0 <? 224 then
        match rest with
        | s1 :: _ =>
            if cont s1
            then (Z.lor (Z.shiftl (Z.land s0 31) 6) (Z.land s1 63), 2%nat)
            else (RuneError, 1%nat)
        | _ => (RuneError, 1%nat)
        end
      else if s0 <? 240 then
        let lo := if s0 =? 224 then 160 else 128 in
        let hi := if s0 =? 237 then 159 else 191 in
        match rest with
        | s1 :: s2 :: _ =>
            if (lo <=? s1) && (s1 <=? hi) && cont s2
            then (Z.lor (Z.shiftl (Z.land s0 15) 12)
                    (Z.lor (Z.shiftl (Z.land s1 63) 6) (Z.land s2 63)), 3%nat)
            else (RuneError, 1%nat)
        | _ => (RuneError, 1%nat)
        end
      else
        let lo := if s0 =? 240 then 144 else 128 in
        let hi := if s0 =? 244 then 143 else 191 in
        match rest with
        | s1 :: s2 :: s3 :: _ =>
            if (lo <=? s1) && (s1 <=? hi) && cont s2 && cont s3
            then (Z.lor (Z.shiftl (Z.land s0 7) 18)
                    (Z.lor (Z.shiftl (Z.land s1 63) 12)
                       (Z.lor (Z.shiftl (Z.land s2 63) 6) (Z.land s3 63))),
                  4%nat)
            else (RuneError, 1%nat)
        | _ => (RuneError, 1%nat)
        end
  end.

(** [for i, r := range s]: the pairs of byte index and rune, in order;
    [skip] counts the bytes still belonging to the rune just decoded. *)
Fixpoint rangeFrom (skip : nat) (i : Z) (bs : list Z) : list (Z * Z) :=
  match bs with
  | [] => []
  | _ :: rest =>
      match skip with
      | S k => rangeFrom k (i + 1) rest
      | O =>
          let '(r, size) := decodeRune bs in
          (i, r) :: rangeFrom (Nat.pred size) (i + 1) rest
      end
  end.

Definition rangeString (s : string) : list (Z * Z) := rangeFrom 0 0 (bytes s).

Definition RuneCountInString (s : string) : Z :=
  Z.of_nat (length (rangeString s)).

(** [s[:k]] and [s[n:]] on a string. *)
Definition str_to (s : string) (k : Z) : outcome string :=
  if (0 <=? k) && (k <=? len s)
  then Ok (substring 0 (Z.to_nat k) s)
  else Panic.

Definition str_from (s : string) (n : Z) : outcome string :=
  if (0 <=? n) && (n <=? len s)
  then Ok (substring (Z.to_nat n) (String.length s - Z.to_nat n) s)
  else Panic.

(** ** The pen

    A [*Pen] is [None] for the nil pointer.  A method that mutates the pen
    returns its new state. *)

Record Pen : Type := mkPen {
  pen_x : Z; pen_y : Z; pen_w : Z; pen_h : Z;
  pen_dx : Z; pen_dy : Z;
  pen_fg : Z; pen_bg : Z
}.

Definition set_cursor (p : Pen) (dx dy : Z) : Pen :=
  mkPen (pen_x p) (pen_y p) (pen_w p) (pen_h p) dx dy (pen_fg p) (pen_bg p).

Definition Clip (p : option Pen) (x y w h : Z) : option Pen :=
  match p with
  | None => None
  | Some p =>
      let ox := pen_x p +! x in
      let oy := pen_y p +! y in
      let ow := w in
      let oh := h in
      if ox <? 0 then None
      else if oy <? 0 then None
      else if ow <? 0 then None
      else if oh <? 0 then None
      else if ox +! ow >? pen_x p +! pen_w p then None
      else if oy +! oh >? pen_y p +! pen_h p then None
      else Some (mkPen ox oy ow oh 0 0 (pen_fg p) (pen_bg p))
  end.

Definition Width (p : option Pen) : Z :=
  match p with None => 0 | Some p => pen_w p end.

Definition Height (p : option Pen) : Z :=
  match p with None => 0 | Some p => pen_h p end.

Definition SetFg (p : option Pen) (fg : Z) : option Pen :=
  match p with
  | None => None
  | Some p =>
      Some (mkPen (pen_x p) (pen_y p) (pen_w p) (pen_h p)
              (pen_dx p) (pen_dy p) fg (pen_bg p))
  end.

Definition SetBg (p : option Pen) (bg : Z) : option Pen :=
  match p with
  | None => None
  | Some p =>
      Some (mkPen (pen_x p) (pen_y p) (pen_w p) (pen_h p)
              (pen_dx p) (pen_dy p) (pen_fg p) bg)
  end.

(** [for x := 0; x < p.w; x++ { b[x] = cell }] *)
Definition clearRow (b : Slice) (w : Z) (cell : Cell) (cs : list Cell)
  : outcome (list Cell) :=
  fold_left (fun acc x => do cs' <~ acc; slice_set b x cell cs')
            (seqZ 0 w) (Ok cs).

Definition Clear (p : option Pen) (scr : Screen)
  : outcome (option Pen * Screen) :=
  match p with
  | None => Ok (None, scr)
  | Some p =>
      let buf := CellBuffer scr in
      let sw := sw scr in
      let cell := mkCell 32 (pen_fg p) (pen_bg p) in
      do cs <~ fold_left
                 (fun acc y =>
                    do cs' <~ acc;
                    do b <~ slice_from buf (y *! sw +! pen_x p);
                    clearRow b (pen_w p) cell cs')
                 (seqZ 0 (pen_h p)) (Ok (cells scr));
      Ok (Some (set_cursor p 0 0), mkScreen sw (sh scr) cs)
  end.

(** [for i, r := range s { row[i] = termbox.Cell{Fg: p.fg, Bg: p.bg, Ch: r} }] *)
Definition writeRunes (row : Slice) (fg bg : Z) (s : string) (cs : list Cell)
  : outcome (list Cell) :=
  fold_left (fun acc ir =>
               do cs' <~ acc; slice_set row (fst ir) (mkCell (snd ir) fg bg) cs')
            (rangeString s) (Ok cs).

(** The body of [printRow] for a pen that is not nil. *)
Definition printRow_at (p : Pen) (scr : Screen) (s : string)
  : outcome (Z * Pen * Screen) :=
  let stride := sw scr in
  let x := pen_dx p +! pen_x p in
  let y := pen_dy p +! pen_y p in
  do row <~ slice_from (CellBuffer scr) (x +! y *! stride);
  do row <~ slice_to row (pen_w p -! pen_dx p);
  let ct := RuneCountInString s in
  do s <~ (if s_len row <? ct then str_to s ct else Ok s);
  do cs <~ writeRunes row (pen_fg p) (pen_bg p) s (cells scr);
  Ok (s_len row,
      set_cursor p (pen_dx p +! s_len row) (pen_dy p),
      mkScreen (sw scr) (sh scr) cs).

Definition printRow (p : option Pen) (scr : Screen) (s : string)
  : outcome (Z * option Pen * Screen) :=
  match p with
  | None => Ok (0, None, scr)
  | Some p =>
      do r <~ printRow_at p scr s;
      Ok (fst (fst r), Some (snd (fst r)), snd r)
  end.

(** The loop of [Print]: [for n < len(s) && p.dy < p.h]. *)
Fixpoint printLoop (fuel : nat) (p : Pen) (scr : Screen) (s : string) (n : Z)
  : outcome (Pen * Screen) :=
  match fuel with
  | O => OutOfFuel
  | S fuel' =>
      if (n <? len s) && (pen_dy p <? pen_h p) then
        do rest <~ str_from s n;
        do r <~ printRow_at p scr rest;
        let '(k, p1, scr1) := r in
        printLoop fuel' (set_cursor p1 0 (pen_dy p1 +! 1)) scr1 s (n +! k)
      else Ok (p, scr)
  end.

Definition Print (fuel : nat) (p : option Pen) (scr : Screen) (s : string)
  : outcome (option Pen * Screen) :=
  match p with
  | None => Ok (None, scr)
  | Some p =>
      do r <~ printLoop fuel p scr s 0;
      Ok (Some (fst r), snd r)
  end.

Definition Println (fuel : nat) (p : option Pen) (scr : Screen) (s : string)
  : outcome (option Pen * Screen) :=
  match p with
  | None => Ok (None, scr)
  | Some _ =>
      do r <~ Print fuel p scr s;
      match fst r with
      | Some p1 => Ok (Some (set_cursor p1 0 (pen_dy p1 +! 1)), snd r)
      | None => Ok (None, snd r)
      end
  end.

(** ** Drawing widgets *)

(** [l[i]] on an [[]int]. *)
Definition index (l : list Z) (i : nat) : outcome Z :=
  match l !! i with
  | Some v => Ok v
  | None => Panic
  end.

(** [if n > l[i] { l[i] = n }] *)
Definition raise (l : list Z) (i : nat) (n : Z) : outcome (list Z) :=
  do v <~ index l i;
  Ok (if n >? v then <[i := n]> l else l).

(** The first loop of [Grid.Draw]: the length of the longest row. *)
Definition gridCols (t : list (list Widget)) : nat :=
  fold_left (fun cols row => if (cols <? length row)%nat then length row else cols)
            t 0%nat.

(** The second loop of [Grid.Draw], for the cells of row [i] from column [j]
    on: the column widths [w] and row heights [h] are raised to the cells'
    minimum requirements. *)
Fixpoint gridRow (row : list Widget) (i j : nat) (w h : list Z)
  : outcome (list Z * list Z) :=
  match row with
  | [] => Ok (w, h)
  | c :: row' =>
      do w' <~ raise w j (fst (ReqWidth c));
      do h' <~ raise h i (fst (ReqHeight c));
      gridRow row' i (S j) w' h'
  end.

Fixpoint gridSizes (t : list (list Widget)) (i : nat) (w h : list Z)
  : outcome (list Z * list Z) :=
  match t with
  | [] => Ok (w, h)
  | row :: t' =>
      do wh <~ gridRow row i 0 w h;
      gridSizes t' (S i) (fst wh) (snd wh)
  end.

(** [Draw] of each widget.  The pen a container hands to a child is a
    fresh one made by [Clip]; what the child does to it is dropped, and
    only the screen is threaded through.  [fuel] bounds every loop that is
    not a loop over a slice. *)
Fixpoint Draw (fuel : nat) (w : Widget) (p : option Pen) (scr : Screen)
  {struct w} : outcome (option Pen * Screen) :=
  match w with
  | Label t => Print fuel p scr t
  | Blank _ _ _ _ => Ok (p, scr)
  | Tint fg bg c =>
      let p := if negb (fg =? 0) then SetFg p fg else p in
      let p := if negb (bg =? 0) then SetBg p bg else p in
      Draw fuel c p scr
  | Row t =>
      let h := Height p in
      match fitSize ReqWidth fuel (Width p) t with
      | None => OutOfFuel
      | Some sz =>
          do scr' <~
             (fix children (t : list Widget) (sz : list Z) (x : Z) (scr : Screen)
                {struct t} : outcome Screen :=
                match t with
                | [] => Ok scr
                | c :: t' =>
                    match sz with
                    | [] => Panic
                    | tw :: sz' =>
                        do r <~ Draw fuel c (Clip p x 0 tw h) scr;
                        children t' sz' (x +! tw) (snd r)
                    end
                end) t sz 0 scr;
          Ok (p, scr')
      end
  | Column t =>
      let w := Width p in
      match fitSize ReqHeight fuel (Height p) t with
      | None => OutOfFuel
      | Some sz =>
          do scr' <~
             (fix children (t : list Widget) (sz : list Z) (y : Z) (scr : Screen)
                {struct t} : outcome Screen :=
                match t with
                | [] => Ok scr
                | c :: t' =>
                    match sz with
                    | [] => Panic
                    | th :: sz' =>
                        do r <~ Draw fuel c (Clip p 0 y w th) scr;
                        children t' sz' (y +! th) (snd r)
                    end
                end) t sz 0 scr;
          Ok (p, scr')
      end
  | Grid t =>
      do wh <~ gridSizes t 0 (replicate (gridCols t) 0) (replicate (length t) 0);
      let '(w, h) := wh in
      do scr' <~
         (fix rows (t : list (list Widget)) (i : nat) (y : Z) (scr : Screen)
            {struct t} : outcome Screen :=
            match t with
            | [] => Ok scr
            | row :: t' =>
                do hi <~ index h i;
                do scr' <~
                   (fix cols (row : list Widget) (j : nat) (x : Z) (scr : Screen)
                      {struct row} : outcome Screen :=
                      match row with
                      | [] => Ok scr
                      | c :: row' =>
                          do wj <~ index w j;
                          do r <~ Draw fuel c (Clip p x y wj hi) scr;
                          cols row' (S j) (x +! (wj +! 1)) (snd r)
                      end) row 0%nat 0 scr;
                rows t' (S i) (y +! hi) scr'
            end) t 0%nat 0 scr;
      Ok (p, scr')
  end.

(** The loops of [Draw] over the children of a row, of a column and of a
    grid, by name, with the [Draw] of the children as [draw]. *)
Definition Row_children (draw : Widget -> option Pen -> Screen -> outcome (option Pen * Screen))
    (p : option Pen) (h : Z)
  : list Widget -> list Z -> Z -> Screen -> outcome Screen :=
  fix children (t : list Widget) (sz : list Z) (x : Z) (scr : Screen)
    {struct t} : outcome Screen :=
    match t with
    | [] => Ok scr
    | c :: t' =>
        match sz with
        | [] => Panic
        | tw :: sz' =>
            do r <~ draw c (Clip p x 0 tw h) scr;
            children t' sz' (x +! tw) (snd r)
        end
    end.

Definition Column_children (draw : Widget -> option Pen -> Screen -> outcome (option Pen * Screen))
    (p : option Pen) (w : Z)
  : list Widget -> list Z -> Z -> Screen -> outcome Screen :=
  fix children (t : list Widget) (sz : list Z) (y : Z) (scr : Screen)
    {struct t} : outcome Screen :=
    match t with
    | [] => Ok scr
    | c :: t' =>
        match sz with
        | [] => Panic
        | th :: sz' =>
            do r <~ draw c (Clip p 0 y w th) scr;
            children t' sz' (y +! th) (snd r)
        end
    end.

Definition Grid_cols (draw : Widget -> option Pen -> Screen -> outcome (option Pen * Screen))
    (p : option Pen) (w : list Z) (y hi : Z)
  : list Widget -> nat -> Z -> Screen -> outcome Screen :=
  fix cols (row : list Widget) (j : nat) (x : Z) (scr : Screen)
    {struct row} : outcome Screen :=
    match row with
    | [] => Ok scr
    | c :: row' =>
        do wj <~ index w j;
        do r <~ draw c (Clip p x y wj hi) scr;
        cols row' (S j) (x +! (wj +! 1)) (snd r)
    end.

Definition Grid_rows (draw : Widget -> option Pen -> Screen -> outcome (option Pen * Screen))
    (p : option Pen) (w h : list Z)
  : list (list Widget) -> nat -> Z -> Screen -> outcome Screen :=
  fix rows (t : list (list Widget)) (i : nat) (y : Z) (scr : Screen)
    {struct t} : outcome Screen :=
    match t with
    | [] => Ok scr
    | row :: t' =>
        do hi <~ index h i;
        do scr' <~ Grid_cols draw p w y hi row 0%nat 0 scr;
        rows t' (S i) (y +! hi) scr'
    end.

Definition Row_Draw (fuel : nat) (t : list Widget) := Draw fuel (Row t).

(** ** The root driver

    [termbox.Clear] belongs to the backend: it resets every cell of the
    buffer to a blank in the given colours.  [termbox.Flush], deferred by
    [Draw], presents the buffer and leaves it as it is. *)

Definition termbox_Clear (fg bg : Z) (scr : Screen) : Screen :=
  mkScreen (sw scr) (sh scr) (map (fun _ => mkCell 32 fg bg) (cells scr)).

Module morlock.

(** [Draw(root Widget)]; a nil interface value is [None]. *)
Definition Draw (fuel : nat) (root : option Widget) (scr : Screen)
  : outcome Screen :=
  let scr := termbox_Clear 0 0 scr in
  match root with
  | None => Ok scr
  | Some w =>
      do r <~ Draw fuel w (Some (mkPen 0 0 (sw scr) (sh scr) 0 0 0 0)) scr;
      Ok (snd r)
  end.

End morlock.

(** * The vocabulary of the statements *)

Definition sumZ (l : list Z) : Z := fold_right Z.add 0 l.

(** A screen of [w] by [h] cells, all holding [c]. *)
Definition blankScreen (w h : Z) (c : Cell) : Screen :=
  mkScreen w h (replicate (Z.to_nat (w * h)) c).

(** The rectangle of [o] lies inside the rectangle of [p]. *)
Definition contained (o p : Pen) : Prop :=
  pen_x p <= pen_x o /\ pen_y p <= pen_y o /\
  pen_x o + pen_w o <= pen_x p + pen_w p /\
  pen_y o + pen_h o <= pen_y p + pen_h p.

(** The cell at column [x] and row [y] of the screen. *)
Definition cellAt (scr : Screen) (x y : Z) : option Cell :=
  cells scr !! Z.to_nat (x + y * sw scr).

Definition noCell : Cell := mkCell 0 0 0.

(** A pen whose rectangle has no negative coordinate or extent and ends
    within the [int]s. *)
Definition Pen_ok (p : Pen) : Prop :=
  0 <= pen_x p /\ 0 <= pen_y p /\ 0 <= pen_w p /\ 0 <= pen_h p /\
  pen_x p + pen_w p <= Int.max_int /\ pen_y p + pen_h p <= Int.max_int.

(** [fits lo sz mx]: entry by entry, [lo <= sz <= mx], all of them [int]s. *)
Inductive fits : list Z -> list Z -> list Z -> Prop :=
| fits_nil : fits [] [] []
| fits_cons lo s m los szs mxs :
    Int.min_int <= lo <= s -> s <= m <= Int.max_int ->
    fits los szs mxs -> fits (lo :: los) (s :: szs) (m :: mxs).

(** The greatest of the numbers of [l] and 0, the value the accumulators
    of the requirement loops start from. *)
Definition maxOver (l : list Z) : Z := fold_right Z.max 0 l.

(** The fuel the loop needs from a state: one unit for the last test of
    the condition, and one for each pass, of which there are at most
    [n]. *)
Definition fitNeed (n : Z) (more : bool) : nat :=
  if (n >? 0) && more then S (Z.to_nat n) else 1%nat.

Definition printCond (p : Pen) (s : string) (n : Z) : bool :=
  (n <? len s) && (pen_dy p <? pen_h p).

(** The fuel the loop of [Print] needs with [n] bytes consumed: a unit for
    each byte left, and one for the last test of the condition. *)
Definition printNeed (s : string) (n : Z) : nat :=
  if n <? 0 then 1%nat else S (Z.to_nat (len s - n)).

(** The arguments of a [Clip] on [p] that stay within the [int]s: offsets
    that are not negative, extents that are [int]s, and a far corner that
    is one too. *)
Definition ClipArgs (p : Pen) (x y w h : Z) : Prop :=
  0 <= x /\ 0 <= y /\ Int.min_int <= w /\ Int.min_int <= h /\
  pen_x p + x + Z.max 0 w <= Int.max_int /\
  pen_y p + y + Z.max 0 h <= Int.max_int.

(** A screen whose buffer has one cell for each column of each row, and
    whose number of cells is an [int]. *)
Definition Screen_ok (scr : Screen) : Prop :=
  0 <= sw scr /\ 0 <= sh scr /\
  Z.of_nat (length (cells scr)) = sw scr * sh scr /\
  sw scr * sh scr <= Int.max_int.

(** A text of ASCII characters only: each of its bytes is a rune. *)
Definition is_ascii (s : string) : Prop := Forall (fun b => b < 128) (bytes s).

(** The cell that [printRow] writes for the byte at offset [i] of [s]. *)
Definition cellOfByte (p : Pen) (s : string) (i : Z) : option Cell :=
  (fun b => mkCell b (pen_fg p) (pen_bg p)) <$> bytes s !! Z.to_nat i.

(** Two screens of the same dimensions, with buffers of the same length. *)
Definition same_size (a b : Screen) : Prop :=
  sw b = sw a /\ sh b = sh a /\ length (cells b) = length (cells a).

(** The cells of the column [j] of a grid: one from each row that is long
    enough to have it. *)
Definition gridColumn (t : list (list Widget)) (j : nat) : list Widget :=
  omap (fun row : list Widget => row !! j) t.

(** A tree of widgets whose rows and columns are slices, of a length that
    is an [int]. *)
Inductive sliced : Widget -> Prop :=
| sliced_Label t : sliced (Label t)
| sliced_Blank a b c d : sliced (Blank a b c d)
| sliced_Tint fg bg w : sliced w -> sliced (Tint fg bg w)
| sliced_Row t :
    Z.of_nat (length t) <= Int.max_int -> Forall sliced t -> sliced (Row t)
| sliced_Column t :
    Z.of_nat (length t) <= Int.max_int -> Forall sliced t -> sliced (Column t)
| sliced_Grid t : Forall (Forall sliced) t -> sliced (Grid t).

(** Three properties of a function [draw] that draws the children of a
    container, at a child [c]: it does nothing with a nil pen; it keeps
    the size of the screen; and [draw'] does what it does wherever it has
    fuel enough. *)
Definition inert (draw : Widget -> option Pen -> Screen -> outcome (option Pen * Screen))
    (c : Widget) : Prop :=
  forall scr r scr', draw c None scr = Ok (r, scr') -> r = None /\ scr' = scr.

Definition keeps (draw : Widget -> option Pen -> Screen -> outcome (option Pen * Screen))
    (c : Widget) : Prop :=
  forall p scr r scr', draw c p scr = Ok (r, scr') -> same_size scr scr'.

Definition agree (draw draw' : Widget -> option Pen -> Screen -> outcome (option Pen * Screen))
    (c : Widget) : Prop :=
  forall p scr, draw c p scr <> OutOfFuel -> draw' c p scr = draw c p scr.

(** The inputs of the examples. *)

Definition hello : string := "hello".

Definition cellsOf (l : list Z) : list Cell := map (fun ch => mkCell ch 0 0) l.

(** The two bytes of U+00E9 followed by the letter a. *)
Definition e_acute_a : string :=
  String (ascii_of_nat 195) (String (ascii_of_nat 169) (String (ascii_of_nat 97) EmptyString)).

Definition row_a_bb : list Widget := [Label "a"; Label "bb"].

Definition pen5 : Pen := mkPen 0 0 5 1 0 0 0 0.

Definition pen80 : Pen := mkPen 0 0 80 24 0 0 3 4.

(** * Properties *)

Ltac int_unfold :=
  unfold Int.add, Int.sub, Int.in_range, Int.min_int, Int.max_int in *.

(** ** Machine integers *)

Lemma wrap_in_range z : Int.in_range (Int.wrap z).
Proof.
  unfold Int.in_range, Int.wrap, Int.min_int, Int.max_int, Int.modulus.
  pose proof (Z.mod_pos_bound (z - - 2 ^ 63) (2 ^ 64) ltac:(lia)). lia.
Qed.

Lemma wrap_id z : Int.in_range z -> Int.wrap z = z.
Proof.
  unfold Int.in_range, Int.wrap, Int.min_int, Int.max_int, Int.modulus. intros H.
  rewrite Z.mod_small; lia.
Qed.

(** ** The size negotiator *)

Section FitSizeFacts.

Context {W : Type}.
Variable sel : W -> Z * Z.

Lemma fitInit_length (t : list W) : forall n,
  length (snd (fst (fitInit sel n t))) = length t /\
  length (snd (fitInit sel n t)) = length t.
Proof.
  induction t as [|w t IH]; intros n; simpl; [auto|].
  specialize (IH (n -! fst (sel w))).
  destruct (fitInit sel (n -! fst (sel w)) t) as [[n' sz] mx]; simpl in *.
  lia.
Qed.

Lemma fitInit_in_range (t : list W) : forall n,
  t <> [] -> Int.in_range (fst (fst (fitInit sel n t))).
Proof.
  induction t as [|w t IH]; intros n Hne; [congruence|]. simpl.
  destruct t as [|w' t].
  - simpl. apply wrap_in_range.
  - specialize (IH (n -! fst (sel w)) ltac:(discriminate)).
    destruct (fitInit sel (n -! fst (sel w)) (w' :: t)) as [[n' sz] mx].
    exact IH.
Qed.

(** One pass never lengthens [sz], takes at most one unit per entry from
    [n], and sets [more] exactly when it took something. *)
Lemma fitPass_spec (mx : list Z) : forall sz n more,
  Int.min_int + Z.of_nat (length sz) <= n <= Int.max_int ->
  let r := fitPass mx sz n more in
  length (fst (fst r)) = length sz /\
  n - Z.of_nat (length sz) <= snd (fst r) <= n /\
  (snd r = more /\ snd (fst r) = n \/ snd r = true /\ snd (fst r) < n).
Proof.
  induction mx as [|m mx IH]; intros sz n more Hn; simpl.
  - destruct sz; simpl; (split; [reflexivity|split; [lia|left; auto]]).
  - destruct sz as [|s sz]; [simpl; split; [reflexivity|split; [lia|left; auto]]|].
    simpl length in Hn. rewrite Nat2Z.inj_succ in Hn.
    destruct (s =? m).
    + specialize (IH sz n more ltac:(lia)).
      destruct (fitPass mx sz n more) as [[r n'] more']; simpl in *.
      rewrite Nat2Z.inj_succ. intuition lia.
    + assert (Hw : n -! 1 = n - 1).
      { apply wrap_id. unfold Int.in_range, Int.min_int, Int.max_int in *. lia. }
      rewrite Hw.
      specialize (IH sz (n - 1) true ltac:(lia)).
      destruct (fitPass mx sz (n - 1) true) as [[r n'] more']; simpl in *.
      rewrite Nat2Z.inj_succ. intuition lia.
Qed.

Lemma fitPass_length (mx : list Z) : forall sz n more,
  length (fst (fst (fitPass mx sz n more))) = length sz.
Proof.
  induction mx as [|m mx IH]; intros sz n more; simpl.
  - destruct sz; reflexivity.
  - destruct sz as [|s sz]; [reflexivity|].
    destruct (s =? m).
    + specialize (IH sz n more).
      destruct (fitPass mx sz n more) as [[r n'] more']; simpl in *. lia.
    + specialize (IH sz (n -! 1) true).
      destruct (fitPass mx sz (n -! 1) true) as [[r n'] more']; simpl in *. lia.
Qed.

(** More fuel never changes a result. *)
Lemma fitLoop_fuel_mono (fuel : nat) : forall fuel' mx sz n more r,
  fitLoop fuel mx sz n more = Some r -> (fuel <= fuel')%nat ->
  fitLoop fuel' mx sz n more = Some r.
Proof.
  induction fuel as [|fuel IH]; intros fuel' mx sz n more r H Hle; [discriminate|].
  destruct fuel' as [|fuel']; [lia|]. simpl in *.
  destruct ((n >? 0) && more); [|exact H].
  destruct (fitPass mx sz n false) as [[sz' n'] more'].
  apply IH; [exact H | lia].
Qed.

Lemma fitLoop_terminates (fuel : nat) : forall mx sz n more,
  Int.in_range n -> Z.of_nat (length sz) <= Int.max_int ->
  (fitNeed n more <= fuel)%nat ->
  exists r, fitLoop fuel mx sz n more = Some r /\ length r = length sz.
Proof.
  induction fuel as [|fuel IH]; intros mx sz n more Hn Hlen Hfuel.
  - unfold fitNeed in Hfuel. destruct ((n >? 0) && more); lia.
  - simpl. unfold fitNeed in Hfuel.
    destruct ((n >? 0) && more) eqn:Hc; [|eauto].
    apply andb_prop in Hc as [Hpos _]. apply Z.gtb_lt in Hpos.
    pose proof (fitPass_spec mx sz n false) as Hp.
    unfold Int.in_range, Int.min_int, Int.max_int in *.
    specialize (Hp ltac:(lia)). simpl in Hp.
    destruct (fitPass mx sz n false) as [[sz' n'] more']; simpl in Hp.
    destruct Hp as (Hl & Hb & Hm).
    destruct (IH mx sz' n' more') as (r & Hr & Hrl).
    + lia.
    + lia.
    + unfold fitNeed. destruct ((n' >? 0) && more') eqn:Hc'; [|lia].
      apply andb_prop in Hc' as [Hpos' Hmore']. apply Z.gtb_lt in Hpos'.
      destruct Hm as [[Hm _]|[_ Hm]]; [congruence|lia].
    + exists r. split; [exact Hr | lia].
Qed.

End FitSizeFacts.

(** C8.  [fitSize] terminates whatever the total (negative or not) and
    whatever the requirements (none at all, or with a minimum above the
    maximum): for a slice of widgets, whose length is an [int], there is
    an amount of fuel from which on the loop returns one and the same list
    of allocations, one per widget. *)
Theorem fitSize_total {W : Type} (sel : W -> Z * Z) (n : Z) (t : list W) :
  Z.of_nat (length t) <= Int.max_int ->
  exists sz : list Z,
    length sz = length t /\
    exists fuel0 : nat,
      forall fuel : nat, (fuel0 <= fuel)%nat -> fitSize sel fuel n t = Some sz.
Proof.
  intros Hlen. unfold fitSize.
  pose proof (fitInit_length sel t n) as [Hsz Hmx].
  destruct t as [|w t].
  - simpl. exists []. split; [reflexivity|]. exists 2%nat.
    intros fuel Hf. destruct fuel as [|[|fuel]]; [lia|lia|]. simpl.
    destruct (n >? 0); reflexivity.
  - pose proof (fitInit_in_range sel (w :: t) n ltac:(discriminate)) as Hr.
    destruct (fitInit sel n (w :: t)) as [[n' sz] mx]. simpl in Hsz, Hmx, Hr.
    destruct (fitLoop_terminates (fitNeed n' true) mx sz n' true Hr) as (r & Hr1 & Hr2).
    + rewrite Hsz. exact Hlen.
    + lia.
    + exists r. split; [simpl; lia|]. exists (fitNeed n' true).
      intros fuel Hf. eapply fitLoop_fuel_mono; eauto.
Qed.

Lemma fitSize_total_witness :
  Z.of_nat (length [Blank 5 2 0 0; Blank 0 9 0 0]) <= Int.max_int /\
  exists sz : list Z,
    length sz = length [Blank 5 2 0 0; Blank 0 9 0 0] /\
    exists fuel0 : nat,
      forall fuel : nat, (fuel0 <= fuel)%nat ->
        fitSize ReqWidth fuel (-3) [Blank 5 2 0 0; Blank 0 9 0 0] = Some sz.
Proof.
  assert (H : Z.of_nat (length [Blank 5 2 0 0; Blank 0 9 0 0]) <= Int.max_int)
    by (vm_compute; discriminate).
  split; [exact H | exact (fitSize_total ReqWidth (-3) _ H)].
Defined.

(** C1.  A pass of [fitSize] is not cut short when the budget runs out in
    its middle: with one unit to share between two widgets that may both
    grow (minimum 0, maximum 5), both are given a unit, and the allocations
    sum to 2, one more than the total. *)
Theorem fitSize_overshoots (fuel : nat) :
  let t := [Blank 0 5 0 0; Blank 0 5 0 0] in
  Forall (fun w => fst (ReqWidth w) <= snd (ReqWidth w)) t /\
  sumZ (map (fun w => fst (ReqWidth w)) t) <= 1
    <= sumZ (map (fun w => snd (ReqWidth w)) t) /\
  fitSize ReqWidth (S (S fuel)) 1 t = Some [1; 1] /\
  sumZ [1; 1] <> 1.
Proof.
  simpl. repeat split.
  - repeat constructor; simpl; lia.
  - vm_compute. discriminate.
  - vm_compute. discriminate.
  - vm_compute. discriminate.
Qed.

(** ** What [fitSize] does guarantee *)

Lemma fits_length lo sz mx : fits lo sz mx -> length sz = length lo /\ length mx = length lo.
Proof. induction 1; simpl; lia. Qed.

Lemma fitPass_fits lo sz mx : fits lo sz mx -> forall n more,
  Int.min_int + Z.of_nat (length sz) <= n <= Int.max_int ->
  let r := fitPass mx sz n more in
  fits lo (fst (fst r)) mx /\
  sumZ (fst (fst r)) + snd (fst r) = sumZ sz + n /\
  (snd r = false -> fst (fst r) = mx).
Proof.
  induction 1 as [|lo s m los szs mxs Hlo Hm Hfits IH]; intros n more Hn.
  - simpl. split; [constructor|]. split; [reflexivity|]. reflexivity.
  - simpl length in Hn. rewrite Nat2Z.inj_succ in Hn. simpl.
    destruct (Z.eqb_spec s m) as [->|Hne].
    + specialize (IH n more ltac:(lia)).
      destruct (fitPass mxs szs n more) as [[r n'] more']; simpl in *.
      destruct IH as (IH1 & IH2 & IH3).
      split; [constructor; assumption|]. split; [lia|].
      intros E. rewrite (IH3 E). reflexivity.
    + assert (Hw : n -! 1 = n - 1).
      { apply wrap_id. unfold Int.in_range, Int.min_int, Int.max_int in *. lia. }
      assert (Hs : s +! 1 = s + 1).
      { apply wrap_id. unfold Int.in_range, Int.min_int, Int.max_int in *. lia. }
      rewrite Hw, Hs.
      pose proof (fitPass_spec mxs szs (n - 1) true ltac:(lia)) as Hp.
      specialize (IH (n - 1) true ltac:(lia)).
      destruct (fitPass mxs szs (n - 1) true) as [[r n'] more']; simpl in *.
      destruct IH as (IH1 & IH2 & IH3).
      split; [constructor; [lia|lia|assumption]|]. split; [lia|].
      intros E. exfalso. destruct Hp as (_ & _ & [[Hp _]|[Hp _]]); congruence.
Qed.

Lemma fitLoop_fits (fuel : nat) : forall lo sz mx n more r,
  fitLoop fuel mx sz n more = Some r ->
  fits lo sz mx ->
  Z.of_nat (length sz) <= Int.max_int ->
  Z.min 0 (1 - Z.of_nat (length sz)) <= n <= Int.max_int ->
  (more = false -> sz = mx) ->
  fits lo r mx /\
  exists n', sumZ r + n' = sumZ sz + n /\
             Z.min 0 (1 - Z.of_nat (length sz)) <= n' /\
             (n' <= 0 \/ r = mx).
Proof.
  induction fuel as [|fuel IH]; intros lo sz mx n more r H Hfits Hlen Hn Hmore;
    [discriminate|].
  simpl in H. destruct ((n >? 0) && more) eqn:Hc.
  - apply andb_prop in Hc as [Hpos _]. apply Z.gtb_lt in Hpos.
    assert (Hn' : Int.min_int + Z.of_nat (length sz) <= n <= Int.max_int)
      by (unfold Int.min_int, Int.max_int in *; lia).
    pose proof (fitPass_fits lo sz mx Hfits n false Hn') as Hf.
    pose proof (fitPass_spec mx sz n false Hn') as Hp.
    destruct (fitPass mx sz n false) as [[sz' n'] more']; simpl in Hf, Hp.
    destruct Hf as (Hf1 & Hf2 & Hf3). destruct Hp as (Hp1 & Hp2 & _).
    apply (IH lo) in H; [|exact Hf1|lia|lia|exact Hf3].
    destruct H as (Hr & n'' & E1 & E2 & E3).
    split; [exact Hr|]. exists n''. rewrite Hp1 in *. split; [lia|]. split; assumption.
  - injection H as <-. split; [exact Hfits|]. exists n. split; [reflexivity|].
    split; [lia|].
    apply andb_false_iff in Hc as [Hc|Hc].
    + left. destruct (Z.gtb_spec n 0); [discriminate|lia].
    + right. auto.
Qed.

Lemma fitInit_spec {W : Type} (sel : W -> Z * Z) (t : list W) : forall n,
  Forall (fun w => 0 <= fst (sel w)) t ->
  sumZ (map (fun w => fst (sel w)) t) <= n <= Int.max_int ->
  fitInit sel n t =
  (n - sumZ (map (fun w => fst (sel w)) t),
   map (fun w => fst (sel w)) t, map (fun w => snd (sel w)) t).
Proof.
  induction t as [|w t IH]; intros n Hpos Hn; simpl.
  - f_equal. f_equal. lia.
  - inversion Hpos as [|? ? Hw Hpos']; subst. simpl in Hn.
    assert (Hrest : 0 <= sumZ (map (fun w => fst (sel w)) t)).
    { clear -Hpos'. induction Hpos'; simpl; lia. }
    assert (E : n -! fst (sel w) = n - fst (sel w)).
    { apply wrap_id. unfold Int.in_range, Int.min_int, Int.max_int in *. lia. }
    rewrite E, IH; [|exact Hpos'|lia]. f_equal. f_equal. lia.
Qed.

Lemma fits_init {W : Type} (sel : W -> Z * Z) (t : list W) :
  Forall (fun w => 0 <= fst (sel w) <= snd (sel w) /\ snd (sel w) <= Int.max_int) t ->
  fits (map (fun w => fst (sel w)) t) (map (fun w => fst (sel w)) t)
       (map (fun w => snd (sel w)) t).
Proof.
  induction 1 as [|w t Hw _ IH]; simpl; constructor; try exact IH;
    unfold Int.min_int; lia.
Qed.

Lemma fits_Forall2 {W : Type} (sel : W -> Z * Z) (t : list W) : forall sz,
  fits (map (fun w => fst (sel w)) t) sz (map (fun w => snd (sel w)) t) ->
  Forall2 (fun w s => fst (sel w) <= s <= snd (sel w)) t sz.
Proof.
  induction t as [|w t IH]; intros sz H; inversion H; subst; constructor.
  - lia.
  - apply IH. assumption.
Qed.

(** X2.  For requirements that are sizes ([0 <= min <= max]) and a total between
    the sum of the minimums and the sum of the maximums, whatever [fitSize]
    returns keeps every allocation between its minimum and its maximum, and
    sums to the total or more, with less than one unit for each widget
    above it. *)
Lemma fitSize_bounds {W : Type} (sel : W -> Z * Z) (total : Z) (t : list W)
    (fuel : nat) (sz : list Z) :
  Forall (fun w => 0 <= fst (sel w) <= snd (sel w) /\ snd (sel w) <= Int.max_int) t ->
  Z.of_nat (length t) <= Int.max_int ->
  sumZ (map (fun w => fst (sel w)) t) <= total ->
  total <= sumZ (map (fun w => snd (sel w)) t) ->
  total <= Int.max_int ->
  fitSize sel fuel total t = Some sz ->
  Forall2 (fun w s => fst (sel w) <= s <= snd (sel w)) t sz /\
  total <= sumZ sz <= total + Z.max 0 (Z.of_nat (length t) - 1).
Proof.
  intros Hreq Hlen Hmin Hmax Htot H. unfold fitSize in H.
  assert (Hpos : Forall (fun w => 0 <= fst (sel w)) t).
  { eapply List.Forall_impl; [|exact Hreq]. simpl. intros w Hw. lia. }
  assert (Hsum0 : 0 <= sumZ (map (fun w => fst (sel w)) t)).
  { clear -Hpos. induction Hpos; simpl; lia. }
  rewrite (fitInit_spec sel t total Hpos) in H by lia.
  pose proof (fits_init sel t Hreq) as Hfits.
  apply (fitLoop_fits fuel _ _ _ _ _ _ H) in Hfits;
    rewrite ?length_map; [|exact Hlen|lia|discriminate].
  destruct Hfits as (Hfits & n' & E1 & E2 & E3).
  split; [apply fits_Forall2; exact Hfits|].
  rewrite length_map in E2.
  destruct E3 as [E3|E3]; [lia|]. subst sz. lia.
Qed.

(** The worked examples of the size negotiator, with the largest [int] for
    a maximum that is not bounded. *)
Example fitSize_even (fuel : nat) :
  fitSize ReqWidth (7 + fuel) 10
    [Blank 0 Int.max_int 0 0; Blank 0 Int.max_int 0 0] = Some [5; 5].
Proof. vm_compute. reflexivity. Qed.

Example fitSize_capped (fuel : nat) :
  fitSize ReqWidth (9 + fuel) 10
    [Blank 0 3 0 0; Blank 0 Int.max_int 0 0] = Some [3; 7].
Proof. vm_compute. reflexivity. Qed.

Example fitSize_short (fuel : nat) :
  fitSize ReqWidth (1 + fuel) 3
    [Blank 2 2 0 0; Blank 2 2 0 0; Blank 2 2 0 0] = Some [2; 2; 2].
Proof. vm_compute. reflexivity. Qed.

(** ** The pen *)

(** C2.  [Clip] tests the new origin against the screen's origin, not
    against the pen's: on a pen that starts at column 5, itself clipped
    from the full screen, an offset of -3 gives a pen at column 2, which
    is not inside the rectangle it was clipped from, and printing through
    it writes the cell at column 2. *)
Theorem Clip_escapes_parent (fuel : nat) :
  let scr := blankScreen 80 24 noCell in
  let root := mkPen 0 0 80 24 0 0 0 0 in
  let p := mkPen 5 0 10 10 0 0 0 0 in
  let o := mkPen 2 0 1 1 0 0 0 0 in
  Clip (Some root) 5 0 10 10 = Some p /\
  Clip (Some p) (-3) 0 1 1 = Some o /\
  ~ contained o p /\
  exists o' scr',
    Print (S (S fuel)) (Some o) scr "x" = Ok (o', scr') /\
    cellAt scr' 2 0 = Some (mkCell 120 0 0).
Proof.
  simpl. split; [reflexivity|]. split; [reflexivity|]. split.
  - unfold contained. simpl. lia.
  - eexists. eexists. split; [vm_compute; reflexivity|]. reflexivity.
Qed.

(** ** What [Clip] does guarantee *)

(** X5.  With offsets that are not negative (and a request whose far corner is
    still an [int]), the pen [Clip] returns lies inside the pen it was
    clipped from. *)
Lemma Clip_contained (p o : Pen) (x y w h : Z) :
  Pen_ok p -> 0 <= x -> 0 <= y ->
  pen_x p + x + w <= Int.max_int -> pen_y p + y + h <= Int.max_int ->
  Clip (Some p) x y w h = Some o ->
  contained o p /\ Pen_ok o.
Proof.
  intros (Hx & Hy & Hw & Hh & Hxw & Hyh) Hx0 Hy0 Hfx Hfy H.
  unfold Clip in H.
  destruct (Z.ltb_spec (pen_x p +! x) 0) as [|Hox]; [discriminate|].
  destruct (Z.ltb_spec (pen_y p +! y) 0) as [|Hoy]; [discriminate|].
  destruct (Z.ltb_spec w 0) as [|Hw0]; [discriminate|].
  destruct (Z.ltb_spec h 0) as [|Hh0]; [discriminate|].
  assert (Ex : pen_x p +! x = pen_x p + x) by (apply wrap_id; int_unfold; lia).
  assert (Ey : pen_y p +! y = pen_y p + y) by (apply wrap_id; int_unfold; lia).
  rewrite Ex, Ey in H.
  assert (Exw : pen_x p + x +! w = pen_x p + x + w) by (apply wrap_id; int_unfold; lia).
  assert (Eyh : pen_y p + y +! h = pen_y p + y + h) by (apply wrap_id; int_unfold; lia).
  assert (Epx : pen_x p +! pen_w p = pen_x p + pen_w p) by (apply wrap_id; int_unfold; lia).
  assert (Epy : pen_y p +! pen_h p = pen_y p + pen_h p) by (apply wrap_id; int_unfold; lia).
  rewrite Exw, Eyh, Epx, Epy in H.
  destruct (Z.gtb_spec (pen_x p + x + w) (pen_x p + pen_w p)); [discriminate|].
  destruct (Z.gtb_spec (pen_y p + y + h) (pen_y p + pen_h p)); [discriminate|].
  injection H as <-. unfold contained, Pen_ok. simpl. lia.
Qed.

Lemma contained_trans (a b c : Pen) : contained a b -> contained b c -> contained a c.
Proof. unfold contained. lia. Qed.

(** C6.  [Clear] indexes the buffer by its own row counter and the pen's
    column, and leaves the pen's row out: on a screen of 2 by 2, the pen
    clipped to the single cell of column 0, row 1 blanks the cell of
    column 0, row 0, outside its rectangle, and leaves its own cell as it
    was. *)
Theorem Clear_ignores_pen_row :
  let scr := blankScreen 2 2 noCell in
  let root := mkPen 0 0 2 2 0 0 7 8 in
  let p := mkPen 0 1 1 1 0 0 7 8 in
  Clip (Some root) 0 1 1 1 = Some p /\
  exists scr',
    Clear (Some p) scr = Ok (Some p, scr') /\
    cellAt scr' 0 0 = Some (mkCell 32 7 8) /\
    cellAt scr' 0 1 = Some noCell /\
    cellAt scr 0 0 = Some noCell.
Proof.
  simpl. split; [reflexivity|].
  eexists. split; [vm_compute; reflexivity|].
  repeat split.
Qed.

(** C7.  Every method of a nil pen returns at once: [Clip] gives nil,
    [Width] and [Height] give 0, [printRow] gives 0, and [SetFg], [SetBg],
    [Clear], [Print] and [Println] leave the pen nil and the screen as it
    was. *)
Theorem nil_pen_inert (scr : Screen) (s : string) (fuel : nat)
    (x y w h c : Z) :
  Clip None x y w h = None /\
  Width None = 0 /\
  Height None = 0 /\
  SetFg None c = None /\
  SetBg None c = None /\
  Clear None scr = Ok (None, scr) /\
  printRow None scr s = Ok (0, None, scr) /\
  Print fuel None scr s = Ok (None, scr) /\
  Println fuel None scr s = Ok (None, scr).
Proof. repeat split. Qed.

(** ** Labels *)

(** C3.  A label of five letters asks for a width of 5 to 5 and a height
    of 1 to 1, and on a pen 7 wide its five letters fill the first five
    cells.  On a pen 3 wide the text is not cut to the row: [printRow]
    keeps all five letters ([s[:ct]], where [ct] counts the runes of the
    text, not the cells of the row) and panics on the index 3 of a row of
    3 cells. *)
Theorem Label_hello_narrow_panics (fuel : nat) :
  let scr := blankScreen 7 1 noCell in
  let root := mkPen 0 0 7 1 0 0 0 0 in
  let narrow := mkPen 0 0 3 1 0 0 0 0 in
  ReqWidth (Label hello) = (5, 5) /\
  ReqHeight (Label hello) = (1, 1) /\
  Draw (S (S fuel)) (Label hello) (Some root) scr
    = Ok (Some (mkPen 0 0 7 1 0 1 0 0),
          mkScreen 7 1 (cellsOf [104; 101; 108; 108; 111; 0; 0])) /\
  Clip (Some root) 0 0 3 1 = Some narrow /\
  Draw (S fuel) (Label hello) (Some narrow) scr = Panic.
Proof.
  simpl. repeat split; vm_compute; reflexivity.
Qed.

(** C4.  A label's width is [len] of its string, the number of bytes, and
    [printRow] stores each rune at the index [range] gives, the offset of
    its first byte: the text of two runes and three bytes asks for a width
    of 3, and is written to the cells 0 and 2, with the cell 1 between
    them left as it was. *)
Theorem Label_counts_bytes (fuel : nat) :
  let scr := blankScreen 3 1 noCell in
  let root := mkPen 0 0 3 1 0 0 0 0 in
  bytes e_acute_a = [195; 169; 97] /\
  RuneCountInString e_acute_a = 2 /\
  rangeString e_acute_a = [(0, 233); (2, 97)] /\
  ReqWidth (Label e_acute_a) = (3, 3) /\
  Draw (S (S fuel)) (Label e_acute_a) (Some root) scr
    = Ok (Some (mkPen 0 0 3 1 0 1 0 0),
          mkScreen 3 1 (cellsOf [233; 0; 97])).
Proof.
  simpl. repeat split; vm_compute; reflexivity.
Qed.

(** ** Rows *)

(** C5, as the claim has it: the widths are not 5 and 5. *)
Lemma Row_a_bb_not_5_5 :
  fitSize ReqWidth 10 10 row_a_bb <> Some [5; 5].
Proof. vm_compute. discriminate. Qed.

(** C5.  A label's maximum width is its minimum, so the two labels of the
    row keep the widths 1 and 2 in a pen 10 wide and 1 tall, and the 7
    units left are given to nobody.  The first label is written to the
    cell 0, the second to the cells 1 and 2 right after it, and the cells
    3 to 9 are not written: they are as they were, blank when the row is
    the root that [Draw] paints on the cleared screen. *)
Theorem Row_a_bb_widths (fuel : nat) :
  let scr := blankScreen 10 1 noCell in
  let root := mkPen 0 0 10 1 0 0 0 0 in
  map ReqWidth row_a_bb = [(1, 1); (2, 2)] /\
  fitSize ReqWidth (S (S fuel)) (Width (Some root)) row_a_bb = Some [1; 2] /\
  Row_Draw (S (S fuel)) row_a_bb (Some root) scr
    = Ok (Some root,
          mkScreen 10 1 (cellsOf [97; 98; 98; 0; 0; 0; 0; 0; 0; 0])) /\
  morlock.Draw (S (S fuel)) (Some (Row row_a_bb)) scr
    = Ok (mkScreen 10 1 (cellsOf [97; 98; 98; 32; 32; 32; 32; 32; 32; 32])).
Proof.
  simpl. repeat split; vm_compute; reflexivity.
Qed.

(** ** Grids *)

Lemma maxOver_upper (l : list Z) : forall x, In x l -> x <= maxOver l.
Proof.
  induction l as [|a l IH]; intros x Hx; [destruct Hx|].
  simpl. destruct Hx as [->|Hx]; [lia|]. specialize (IH x Hx). lia.
Qed.

Lemma maxOver_attained (l : list Z) : maxOver l = 0 \/ In (maxOver l) l.
Proof.
  induction l as [|a l IH]; [left; reflexivity|]. simpl.
  destruct (Z.max_spec a (maxOver l)) as [[_ ->]|[_ ->]]; [|right; left; reflexivity].
  destruct IH as [IH|IH]; [left; exact IH | right; right; exact IH].
Qed.

(** Where some number of [l] is not negative, [maxOver l] is the maximum
    of [l]. *)
Lemma maxOver_is_max (l : list Z) :
  (exists x, In x l /\ 0 <= x) ->
  In (maxOver l) l /\ forall x, In x l -> x <= maxOver l.
Proof.
  intros (x & Hx & H0). split; [|apply maxOver_upper].
  destruct (maxOver_attained l) as [Hz|Hin]; [|exact Hin].
  pose proof (maxOver_upper l x Hx) as Hle.
  assert (x = 0) by lia. subst x. rewrite Hz. exact Hx.
Qed.

Lemma fold_max_acc (l : list Z) : forall a x,
  fold_right Z.max (Z.max a x) l = Z.max x (fold_right Z.max a l).
Proof. induction l as [|b l IH]; intros a x; simpl; [lia|]. rewrite IH. lia. Qed.

Lemma maxReq_acc (l : list (Z * Z)) : forall a b,
  fold_left (fun acc r =>
               (if fst r >? fst acc then fst r else fst acc,
                if snd r >? snd acc then snd r else snd acc)) l (a, b)
  = (fold_right Z.max a (map fst l), fold_right Z.max b (map snd l)).
Proof.
  induction l as [|[m n] l IH]; intros a b; simpl; [reflexivity|].
  rewrite IH. f_equal.
  - rewrite <- fold_max_acc. f_equal. destruct (Z.gtb_spec m a); lia.
  - rewrite <- fold_max_acc. f_equal. destruct (Z.gtb_spec n b); lia.
Qed.

Lemma maxReq_maxOver (l : list (Z * Z)) :
  maxReq l = (maxOver (map fst l), maxOver (map snd l)).
Proof. apply maxReq_acc. Qed.

(** C9.  The minimum width of a grid is the greatest minimum width of its
    rows plus the number of its rows, and its maximum width the greatest
    maximum width of its rows plus the number of its rows: the padding is
    one unit for each row, however many columns the rows have.  (The sum
    is Go's [int] addition, and the greatest is taken from 0 on, which is
    what an empty grid has.) *)
Theorem Grid_ReqWidth_rows (t : list (list Widget)) :
  Grid_ReqWidth t =
  (maxOver (map (fun row => fst (Row_ReqWidth row)) t) +! Z.of_nat (length t),
   maxOver (map (fun row => snd (Row_ReqWidth row)) t) +! Z.of_nat (length t)).
Proof.
  unfold Grid_ReqWidth, Row_ReqWidth. simpl ReqWidth.
  rewrite maxReq_maxOver. simpl fst. simpl snd.
  rewrite !map_map. reflexivity.
Qed.

(** The same without the machine arithmetic, for a grid that has a row and
    whose rows ask for widths that are not negative and stay, with the
    padding, below the largest [int]. *)
Lemma Grid_ReqWidth_sizes (t : list (list Widget)) :
  t <> [] ->
  Forall (fun row => 0 <= fst (Row_ReqWidth row) /\ 0 <= snd (Row_ReqWidth row)) t ->
  Forall (fun row =>
            fst (Row_ReqWidth row) + Z.of_nat (length t) <= Int.max_int /\
            snd (Row_ReqWidth row) + Z.of_nat (length t) <= Int.max_int) t ->
  exists rmin rmax,
    In rmin t /\ In rmax t /\
    (forall row, In row t ->
       fst (Row_ReqWidth row) <= fst (Row_ReqWidth rmin) /\
       snd (Row_ReqWidth row) <= snd (Row_ReqWidth rmax)) /\
    Grid_ReqWidth t =
    (fst (Row_ReqWidth rmin) + Z.of_nat (length t),
     snd (Row_ReqWidth rmax) + Z.of_nat (length t)).
Proof.
  intros Hne Hpos Hfit.
  assert (E : Grid_ReqWidth t =
    (maxOver (map (fun row => fst (Row_ReqWidth row)) t) +! Z.of_nat (length t),
     maxOver (map (fun row => snd (Row_ReqWidth row)) t) +! Z.of_nat (length t))).
  { unfold Grid_ReqWidth, Row_ReqWidth. simpl ReqWidth.
    rewrite maxReq_maxOver, !map_map. reflexivity. }
  rewrite E. clear E.
  rewrite List.Forall_forall in Hpos, Hfit.
  destruct t as [|r0 t0]; [congruence|]. set (t := r0 :: t0) in *.
  assert (Hr0 : In r0 t) by (left; reflexivity).
  destruct (maxOver_is_max (map (fun row => fst (Row_ReqWidth row)) t)) as [Hin1 Hup1].
  { exists (fst (Row_ReqWidth r0)). split; [|apply (Hpos r0 Hr0)].
    apply in_map_iff. exists r0. auto. }
  destruct (maxOver_is_max (map (fun row => snd (Row_ReqWidth row)) t)) as [Hin2 Hup2].
  { exists (snd (Row_ReqWidth r0)). split; [|apply (Hpos r0 Hr0)].
    apply in_map_iff. exists r0. auto. }
  apply in_map_iff in Hin1 as (rmin & E1 & Hrmin).
  apply in_map_iff in Hin2 as (rmax & E2 & Hrmax).
  exists rmin, rmax. split; [exact Hrmin|]. split; [exact Hrmax|]. split.
  - intros row Hrow. rewrite E1, E2. split.
    + apply Hup1, in_map_iff. exists row. auto.
    + apply Hup2, in_map_iff. exists row. auto.
  - rewrite <- E1, <- E2. unfold Int.add.
    pose proof (Hpos rmin Hrmin) as [P1 _]. pose proof (Hpos rmax Hrmax) as [_ P2].
    pose proof (Hfit rmin Hrmin) as [F1 _]. pose proof (Hfit rmax Hrmax) as [_ F2].
    rewrite !wrap_id; [reflexivity| |];
      unfold Int.in_range, Int.min_int, Int.max_int in *; lia.
Qed.

(** ** Printing *)

Lemma substring_length (s : string) : forall n m,
  (n + m <= String.length s)%nat -> String.length (substring n m s) = m.
Proof.
  induction s as [|c s IH]; intros n m H; simpl in *.
  - destruct n, m; simpl; lia.
  - destruct n as [|n].
    + destruct m as [|m]; [reflexivity|]. simpl. rewrite IH; lia.
    + apply IH. lia.
Qed.

Lemma rangeString_nonempty (s : string) : s <> EmptyString -> rangeString s <> [].
Proof.
  destruct s as [|c s]; [congruence|]. intros _.
  unfold rangeString, bytes. cbn [list_ascii_of_string map rangeFrom].
  destruct (decodeRune (byte_of c :: map byte_of (list_ascii_of_string s)))
    as [r size].
  discriminate.
Qed.

Lemma rangeString_head (s : string) :
  s <> EmptyString -> exists r l, rangeString s = (0, r) :: l.
Proof.
  destruct s as [|c s]; [congruence|]. intros _.
  unfold rangeString, bytes. cbn [list_ascii_of_string map rangeFrom].
  destruct (decodeRune (byte_of c :: map byte_of (list_ascii_of_string s)))
    as [r size].
  eauto.
Qed.

Lemma length_nonempty (s : string) : s <> EmptyString <-> (0 < String.length s)%nat.
Proof. destruct s; simpl; split; intros; try congruence; lia. Qed.

(** Once a write has panicked, the rest of the loop does not run. *)
Lemma writes_after_panic {A : Type} (f : A -> list Cell -> outcome (list Cell))
    (l : list A) :
  fold_left (fun acc a => do cs <~ acc; f a cs) l Panic = Panic.
Proof. induction l as [|a l IH]; simpl; [reflexivity | exact IH]. Qed.

(** What [printRow] returns when it returns: the width left on the row,
    which it also adds to the cursor's column; the row and the height of
    the pen stay.  For a text that is not empty that width is not 0, since
    a row of no cells has no cell for the first rune. *)
Lemma printRow_at_ok (p : Pen) (scr : Screen) (s : string) k p1 scr1 :
  printRow_at p scr s = Ok (k, p1, scr1) ->
  k = pen_w p -! pen_dx p /\ 0 <= k /\
  p1 = set_cursor p (pen_dx p +! k) (pen_dy p) /\
  (s <> EmptyString -> 1 <= k).
Proof.
  unfold printRow_at. intros H.
  destruct (slice_from _ _) as [row0| |]; simpl in H; try discriminate.
  unfold slice_to in H.
  destruct ((0 <=? pen_w p -! pen_dx p) && (pen_w p -! pen_dx p <=? s_cap row0)) eqn:Hk;
    simpl in H; [|discriminate].
  apply andb_prop in Hk as [Hk0 _]. apply Z.leb_le in Hk0.
  set (row := mkSlice (s_off row0) (pen_w p -! pen_dx p) (s_cap row0)) in *.
  destruct (if pen_w p -! pen_dx p <? RuneCountInString s
            then str_to s (RuneCountInString s) else Ok s) as [s'| |] eqn:Hs;
    simpl in H; try discriminate.
  destruct (writeRunes row (pen_fg p) (pen_bg p) s' (cells scr)) as [cs| |] eqn:Hw;
    simpl in H; try discriminate.
  injection H as <- <- <-.
  split; [reflexivity|]. split; [exact Hk0|]. split; [reflexivity|].
  intros Hne.
  destruct (Z.eq_dec (pen_w p -! pen_dx p) 0) as [Hz|Hz]; [exfalso|lia].
  assert (Hct : 0 < RuneCountInString s).
  { unfold RuneCountInString. pose proof (rangeString_nonempty s Hne).
    destruct (rangeString s); [congruence|simpl; lia]. }
  assert (Hs' : s' <> EmptyString).
  { rewrite Hz in Hs. destruct (0 <? RuneCountInString s) eqn:Hlt;
      [|apply Z.ltb_ge in Hlt; lia].
    unfold str_to in Hs.
    destruct ((0 <=? RuneCountInString s) && (RuneCountInString s <=? len s)) eqn:Hb;
      [|discriminate].
    injection Hs as <-. apply andb_prop in Hb as [_ Hb]. apply Z.leb_le in Hb.
    apply length_nonempty. unfold len in Hb.
    rewrite substring_length; lia. }
  destruct (rangeString_head s' Hs') as (r & l & Hr).
  unfold writeRunes in Hw. rewrite Hr in Hw.
  simpl in Hw. unfold slice_set in Hw at 2. subst row. simpl s_len in Hw.
  rewrite Hz in Hw. simpl in Hw.
  rewrite writes_after_panic in Hw. discriminate.
Qed.

Lemma writes_never_out_of_fuel {A : Type} (f : A -> list Cell -> outcome (list Cell))
    (l : list A) :
  (forall a cs, f a cs <> OutOfFuel) ->
  forall acc, acc <> OutOfFuel ->
    fold_left (fun acc a => do cs <~ acc; f a cs) l acc <> OutOfFuel.
Proof.
  intros Hf. induction l as [|a l IH]; intros acc Hacc; simpl; [exact Hacc|].
  apply IH. destruct acc; simpl; [apply Hf|discriminate|congruence].
Qed.

Lemma slice_set_never_out_of_fuel (b : Slice) (i : Z) (c : Cell) (cs : list Cell) :
  slice_set b i c cs <> OutOfFuel.
Proof. unfold slice_set. destruct (_ && _); discriminate. Qed.

Lemma writeRunes_never_out_of_fuel (row : Slice) (fg bg : Z) (s : string) (cs : list Cell) :
  writeRunes row fg bg s cs <> OutOfFuel.
Proof.
  unfold writeRunes.
  apply (writes_never_out_of_fuel (fun ir cs' => slice_set row (fst ir) (mkCell (snd ir) fg bg) cs')).
  - intros a cs'. apply slice_set_never_out_of_fuel.
  - discriminate.
Qed.

(** [printRow] has no loop but the one over the runes of its text. *)
Lemma printRow_at_never_out_of_fuel (p : Pen) (scr : Screen) (s : string) :
  printRow_at p scr s <> OutOfFuel.
Proof.
  unfold printRow_at, slice_from, slice_to.
  destruct (_ && _); simpl; [|discriminate].
  destruct (_ && _); simpl; [|discriminate].
  destruct (_ <? _).
  - unfold str_to. destruct (_ && _); simpl; [|discriminate].
    match goal with
    | |- context [writeRunes ?r ?f ?b ?t ?c] =>
        pose proof (writeRunes_never_out_of_fuel r f b t c);
        destruct (writeRunes r f b t c); simpl; congruence
    end.
  - simpl.
    match goal with
    | |- context [writeRunes ?r ?f ?b ?t ?c] =>
        pose proof (writeRunes_never_out_of_fuel r f b t c);
        destruct (writeRunes r f b t c); simpl; congruence
    end.
Qed.

(** Where the loop of [Print] returns, the cursor has not moved up; if the
    loop ran at all, the cursor is on a later row, in column 0. *)
Lemma printLoop_cursor (fuel : nat) : forall p scr s n p' scr',
  printLoop fuel p scr s n = Ok (p', scr') ->
  Int.in_range (pen_dy p) -> pen_h p <= Int.max_int ->
  pen_dy p <= pen_dy p' /\
  (pen_dx p = 0 -> pen_dx p' = 0) /\
  (printCond p s n = true -> pen_dx p' = 0 /\ pen_dy p < pen_dy p').
Proof.
  induction fuel as [|fuel IH]; intros p scr s n p' scr' H Hdy Hh; [discriminate|].
  simpl in H. fold (printCond p s n) in H.
  destruct (printCond p s n) eqn:Hc.
  - destruct (str_from s n) as [rest| |]; simpl in H; try discriminate.
    destruct (printRow_at p scr rest) as [[[k p1] scr1]| |] eqn:Hrow;
      simpl in H; try discriminate.
    apply printRow_at_ok in Hrow as (_ & _ & -> & _).
    unfold printCond in Hc. apply andb_prop in Hc as [_ Hlt]. apply Z.ltb_lt in Hlt.
    simpl in H.
    assert (Hw : pen_dy p +! 1 = pen_dy p + 1).
    { apply wrap_id. unfold Int.in_range in *. lia. }
    rewrite Hw in H.
    apply IH in H; simpl; [|unfold Int.in_range in *; lia | exact Hh].
    simpl in H. destruct H as (Hle & Hdx & _).
    specialize (Hdx eq_refl). repeat split; intros; lia.
  - injection H as <- <-. repeat split; intros; try lia; discriminate.
Qed.

Lemma printLoop_never_out_of_fuel (fuel : nat) : forall p scr s n,
  Int.in_range n -> (printNeed s n <= fuel)%nat ->
  printLoop fuel p scr s n <> OutOfFuel.
Proof.
  induction fuel as [|fuel IH]; intros p scr s n Hn Hfuel.
  - unfold printNeed in Hfuel. destruct (n <? 0); lia.
  - simpl. destruct ((n <? len s) && (pen_dy p <? pen_h p)) eqn:Hc; [|discriminate].
    apply andb_prop in Hc as [Hlt _]. apply Z.ltb_lt in Hlt.
    unfold str_from.
    destruct ((0 <=? n) && (n <=? len s)) eqn:Hb; [|simpl; discriminate].
    apply andb_prop in Hb as [Hn0 _]. apply Z.leb_le in Hn0. simpl.
    destruct (printRow_at _ _ _) as [[[k p1] scr1]| |] eqn:Hrow;
      simpl; [|discriminate|exfalso; eapply printRow_at_never_out_of_fuel; eassumption].
    apply printRow_at_ok in Hrow as (Hk & _ & _ & Hk1).
    assert (1 <= k).
    { apply Hk1, length_nonempty. unfold len in Hlt. rewrite substring_length; lia. }
    assert (Hkr : Int.in_range k) by (rewrite Hk; apply wrap_in_range).
    apply IH; [apply wrap_in_range|].
    unfold printNeed in *. destruct (Z.ltb_spec n 0) as [?|_]; [lia|].
    destruct (Z.ltb_spec (n +! k) 0) as [?|Hpos]; [lia|].
    unfold Int.add, Int.wrap, Int.in_range, Int.min_int, Int.max_int, Int.modulus in *.
    assert (Hcase : n + k <= 2 ^ 63 - 1 \/ 2 ^ 63 <= n + k < 2 ^ 64) by lia.
    destruct Hcase as [Hs|Hs].
    + rewrite Z.mod_small in Hpos |- * by lia. lia.
    + exfalso. replace (n + k - - 2 ^ 63) with ((n + k - 2 ^ 63) + 1 * 2 ^ 64) in Hpos by lia.
      rewrite Z.mod_add in Hpos by lia. rewrite Z.mod_small in Hpos by lia. lia.
Qed.


Example Print_hi :
  Print 3 (Some pen5) (blankScreen 5 1 noCell) "hi"
  = Ok (Some (mkPen 0 0 5 1 0 1 0 0), mkScreen 5 1 (cellsOf [104; 105; 0; 0; 0])).
Proof. vm_compute. reflexivity. Qed.


(** * Further properties *)

(** ** The size negotiator, for any total *)

Lemma fitInit_lists {W : Type} (sel : W -> Z * Z) (t : list W) : forall n,
  snd (fst (fitInit sel n t)) = map (fun w => fst (sel w)) t /\
  snd (fitInit sel n t) = map (fun w => snd (sel w)) t.
Proof.
  induction t as [|w t IH]; intros n; simpl; [auto|].
  specialize (IH (n -! fst (sel w))).
  destruct (fitInit sel (n -! fst (sel w)) t) as [[n' sz] mx]; simpl in *.
  destruct IH as [-> ->]. auto.
Qed.






(** The witness of [fitSize_bounds]: 5 units for two widgets that ask for
    1 to 2 and 1 to 9. *)
Lemma fitSize_bounds_witness :
  Forall2 (fun w s => fst (ReqWidth w) <= s <= snd (ReqWidth w))
          [Blank 1 2 0 0; Blank 1 9 0 0] [2; 3] /\
  5 <= sumZ [2; 3] <= 5 + Z.max 0 (Z.of_nat (length [Blank 1 2 0 0; Blank 1 9 0 0]) - 1).
Proof.
  apply (fitSize_bounds ReqWidth 5 [Blank 1 2 0 0; Blank 1 9 0 0] 9 [2; 3]).
  - repeat constructor; simpl; vm_compute; discriminate.
  - vm_compute; discriminate.
  - vm_compute; discriminate.
  - vm_compute; discriminate.
  - vm_compute; discriminate.
  - vm_compute; reflexivity.
Defined.

Lemma fitPass_fixed (mx : list Z) : forall n more,
  fitPass mx mx n more = (mx, n, more).
Proof.
  induction mx as [|m mx IH]; intros n more; simpl; [reflexivity|].
  rewrite Z.eqb_refl, IH. reflexivity.
Qed.

(** X3.  Widgets whose minimum is their maximum are never grown: whatever
    the total, each gets exactly that size, and what is left of the total
    is given to nobody. *)
Theorem fitSize_rigid {W : Type} (sel : W -> Z * Z) (total : Z) (t : list W)
    (fuel : nat) :
  Forall (fun w => fst (sel w) = snd (sel w)) t ->
  fitSize sel (S (S fuel)) total t = Some (map (fun w => fst (sel w)) t).
Proof.
  intros Hrigid. unfold fitSize.
  pose proof (fitInit_lists sel t total) as [Hsz Hmx].
  destruct (fitInit sel total t) as [[n' sz0] mx0]. simpl in Hsz, Hmx. subst sz0 mx0.
  assert (E : map (fun w => snd (sel w)) t = map (fun w => fst (sel w)) t).
  { clear -Hrigid. induction Hrigid as [|w t Hw _ IH]; simpl; [reflexivity|].
    rewrite IH, Hw. reflexivity. }
  rewrite E. cbn [fitLoop]. destruct ((n' >? 0) && true); [|reflexivity].
  rewrite fitPass_fixed. simpl. rewrite andb_false_r. reflexivity.
Qed.

Lemma fitSize_rigid_witness :
  Forall (fun w => fst (ReqWidth w) = snd (ReqWidth w)) [Label "ab"; Blank 3 3 0 0] /\
  fitSize ReqWidth 2 80 [Label "ab"; Blank 3 3 0 0]
  = Some (map (fun w => fst (ReqWidth w)) [Label "ab"; Blank 3 3 0 0]).
Proof.
  assert (H : Forall (fun w => fst (ReqWidth w) = snd (ReqWidth w))
                     [Label "ab"; Blank 3 3 0 0])
    by (repeat constructor).
  split; [exact H | exact (fitSize_rigid ReqWidth 80 _ 0 H)].
Defined.

Lemma fitInit_spec_low {W : Type} (sel : W -> Z * Z) (t : list W) : forall n,
  Forall (fun w => 0 <= fst (sel w)) t ->
  Int.min_int + sumZ (map (fun w => fst (sel w)) t) <= n <= Int.max_int ->
  fst (fst (fitInit sel n t)) = n - sumZ (map (fun w => fst (sel w)) t).
Proof.
  induction t as [|w t IH]; intros n Hpos Hn; simpl; [lia|].
  inversion Hpos as [|? ? Hw Hpos']; subst. simpl in Hn.
  assert (Hrest : 0 <= sumZ (map (fun w => fst (sel w)) t)).
  { clear -Hpos'. induction Hpos'; simpl; lia. }
  assert (E : n -! fst (sel w) = n - fst (sel w)) by (apply wrap_id; int_unfold; lia).
  specialize (IH (n - fst (sel w)) Hpos' ltac:(lia)). rewrite E.
  destruct (fitInit sel (n - fst (sel w)) t) as [[n' sz] mx]; simpl in *. lia.
Qed.

(** X4.  A total that does not exceed the sum of the minimums leaves the
    loop of [fitSize] nothing to give: every widget gets its minimum,
    though together they are more than the total. *)
Theorem fitSize_short_total {W : Type} (sel : W -> Z * Z) (total : Z)
    (t : list W) (fuel : nat) :
  Forall (fun w => 0 <= fst (sel w)) t ->
  sumZ (map (fun w => fst (sel w)) t) <= Int.max_int ->
  0 <= total <= sumZ (map (fun w => fst (sel w)) t) ->
  fitSize sel (S fuel) total t = Some (map (fun w => fst (sel w)) t).
Proof.
  intros Hpos Hsum Htot. unfold fitSize.
  pose proof (fitInit_lists sel t total) as [Hsz Hmx].
  pose proof (fitInit_spec_low sel t total Hpos ltac:(int_unfold; lia)) as Hn.
  destruct (fitInit sel total t) as [[n' sz0] mx0]. simpl in Hsz, Hmx, Hn. subst sz0 mx0.
  simpl. destruct (Z.gtb_spec n' 0) as [Hgt|_]; [lia|]. reflexivity.
Qed.

Lemma fitSize_short_total_witness :
  Forall (fun w => 0 <= fst (ReqWidth w)) [Blank 4 9 0 0; Blank 3 9 0 0] /\
  fitSize ReqWidth 1 5 [Blank 4 9 0 0; Blank 3 9 0 0]
  = Some (map (fun w => fst (ReqWidth w)) [Blank 4 9 0 0; Blank 3 9 0 0]).
Proof.
  assert (H : Forall (fun w => 0 <= fst (ReqWidth w)) [Blank 4 9 0 0; Blank 3 9 0 0])
    by (repeat constructor; simpl; lia).
  split; [exact H|].
  apply (fitSize_short_total ReqWidth 5 _ 0 H).
  - vm_compute. discriminate.
  - vm_compute. split; discriminate.
Defined.

(** ** Clipping with offsets that are not negative *)

(** Within the [int]s, the six tests of [Clip] are tests on the numbers
    themselves. *)
Lemma Clip_plain (p : Pen) (x y w h : Z) :
  Pen_ok p -> ClipArgs p x y w h ->
  Clip (Some p) x y w h =
  if (w <? 0) || (h <? 0) || (pen_w p <? x + w) || (pen_h p <? y + h)
  then None
  else Some (mkPen (pen_x p + x) (pen_y p + y) w h 0 0 (pen_fg p) (pen_bg p)).
Proof.
  intros (Hx & Hy & Hw & Hh & Hxw & Hyh) (Hx0 & Hy0 & Hwl & Hhl & Hfx & Hfy).
  unfold Clip.
  assert (Ex : pen_x p +! x = pen_x p + x) by (apply wrap_id; int_unfold; lia).
  assert (Ey : pen_y p +! y = pen_y p + y) by (apply wrap_id; int_unfold; lia).
  assert (Exw : pen_x p + x +! w = pen_x p + x + w) by (apply wrap_id; int_unfold; lia).
  assert (Eyh : pen_y p + y +! h = pen_y p + y + h) by (apply wrap_id; int_unfold; lia).
  assert (Epx : pen_x p +! pen_w p = pen_x p + pen_w p) by (apply wrap_id; int_unfold; lia).
  assert (Epy : pen_y p +! pen_h p = pen_y p + pen_h p) by (apply wrap_id; int_unfold; lia).
  rewrite Ex, Ey, Exw, Eyh, Epx, Epy.
  destruct (Z.ltb_spec (pen_x p + x) 0); [lia|].
  destruct (Z.ltb_spec (pen_y p + y) 0); [lia|].
  destruct (Z.ltb_spec w 0); [reflexivity|].
  destruct (Z.ltb_spec h 0); [reflexivity|]. simpl.
  destruct (Z.gtb_spec (pen_x p + x + w) (pen_x p + pen_w p));
    destruct (Z.ltb_spec (pen_w p) (x + w)); try lia; [reflexivity|]. simpl.
  destruct (Z.gtb_spec (pen_y p + y + h) (pen_y p + pen_h p));
    destruct (Z.ltb_spec (pen_h p) (y + h)); try lia; reflexivity.
Qed.

(** X6.  A rectangle asked for at offsets that are not negative is given
    exactly when its extents are not negative and it ends within the
    width and the height of the pen; the new pen starts at the old origin
    plus the offsets, with the cursor at its own origin and the colours of
    the old pen. *)
Theorem Clip_inside_iff (p : Pen) (x y w h : Z) :
  Pen_ok p -> ClipArgs p x y w h ->
  (0 <= w /\ 0 <= h /\ x + w <= pen_w p /\ y + h <= pen_h p ->
   Clip (Some p) x y w h
   = Some (mkPen (pen_x p + x) (pen_y p + y) w h 0 0 (pen_fg p) (pen_bg p))) /\
  (w < 0 \/ h < 0 \/ pen_w p < x + w \/ pen_h p < y + h ->
   Clip (Some p) x y w h = None).
Proof.
  intros Hp Ha. rewrite (Clip_plain p x y w h Hp Ha). split.
  - intros (H1 & H2 & H3 & H4).
    destruct (Z.ltb_spec w 0); [lia|]. destruct (Z.ltb_spec h 0); [lia|].
    destruct (Z.ltb_spec (pen_w p) (x + w)); [lia|].
    destruct (Z.ltb_spec (pen_h p) (y + h)); [lia|]. reflexivity.
  - intros H.
    destruct (Z.ltb_spec w 0); [reflexivity|]. destruct (Z.ltb_spec h 0); [reflexivity|].
    destruct (Z.ltb_spec (pen_w p) (x + w)); [reflexivity|].
    destruct (Z.ltb_spec (pen_h p) (y + h)); [reflexivity|]. lia.
Qed.

Lemma pen80_ok : Pen_ok pen80.
Proof. unfold Pen_ok, pen80. simpl. repeat split; vm_compute; discriminate. Qed.

Lemma Clip_inside_iff_witness :
  Pen_ok pen80 /\ ClipArgs pen80 70 0 10 24 /\
  Clip (Some pen80) 70 0 10 24 = Some (mkPen 70 0 10 24 0 0 3 4).
Proof.
  assert (Ha : ClipArgs pen80 70 0 10 24)
    by (unfold ClipArgs; simpl; repeat split; vm_compute; discriminate).
  split; [exact pen80_ok|]. split; [exact Ha|].
  apply (Clip_inside_iff pen80 70 0 10 24 pen80_ok Ha).
  simpl. lia.
Defined.

Lemma Clip_contained_witness :
  Clip (Some pen80) 70 0 10 24 = Some (mkPen 70 0 10 24 0 0 3 4) /\
  contained (mkPen 70 0 10 24 0 0 3 4) pen80 /\ Pen_ok (mkPen 70 0 10 24 0 0 3 4).
Proof.
  assert (H : Clip (Some pen80) 70 0 10 24 = Some (mkPen 70 0 10 24 0 0 3 4))
    by reflexivity.
  split; [exact H|].
  apply (Clip_contained pen80 _ 70 0 10 24 pen80_ok); simpl;
    first [lia | vm_compute; discriminate | exact H].
Defined.

(** X7.  Clipping twice is clipping once by the sum of the offsets: what
    a pen clipped from [p] gives for a rectangle, [p] itself gives for the
    same rectangle moved by the offsets of the first clip. *)
Theorem Clip_twice (p o1 o2 : Pen) (x1 y1 w1 h1 x2 y2 w2 h2 : Z) :
  Pen_ok p -> ClipArgs p x1 y1 w1 h1 ->
  ClipArgs p (x1 + x2) (y1 + y2) w2 h2 -> 0 <= x2 -> 0 <= y2 ->
  Clip (Some p) x1 y1 w1 h1 = Some o1 ->
  Clip (Some o1) x2 y2 w2 h2 = Some o2 ->
  Clip (Some p) (x1 + x2) (y1 + y2) w2 h2 = Some o2.
Proof.
  intros Hp Ha1 Ha12 Hx2 Hy2 H1 H2.
  rewrite (Clip_plain p x1 y1 w1 h1 Hp Ha1) in H1.
  destruct (Z.ltb_spec w1 0); [discriminate|].
  destruct (Z.ltb_spec h1 0); [discriminate|].
  destruct (Z.ltb_spec (pen_w p) (x1 + w1)); [discriminate|].
  destruct (Z.ltb_spec (pen_h p) (y1 + h1)); [discriminate|].
  simpl in H1. injection H1 as <-.
  destruct Hp as (Hx & Hy & Hw & Hh & Hxw & Hyh).
  destruct Ha12 as (A1 & A2 & A3 & A4 & A5 & A6).
  destruct Ha1 as (B1 & B2 & B3 & B4 & B5 & B6).
  rewrite Clip_plain in H2;
    [|unfold Pen_ok; simpl; lia | unfold ClipArgs; simpl; lia].
  rewrite Clip_plain; [|unfold Pen_ok; lia | unfold ClipArgs; lia].
  simpl in H2.
  destruct (Z.ltb_spec w2 0); [discriminate|].
  destruct (Z.ltb_spec h2 0); [discriminate|].
  destruct (Z.ltb_spec w1 (x2 + w2)); [discriminate|].
  destruct (Z.ltb_spec h1 (y2 + h2)); [discriminate|].
  simpl in H2. injection H2 as <-.
  destruct (Z.ltb_spec (pen_w p) (x1 + x2 + w2)); [lia|].
  destruct (Z.ltb_spec (pen_h p) (y1 + y2 + h2)); [lia|].
  simpl. rewrite !Z.add_assoc. reflexivity.
Qed.

Lemma Clip_twice_witness :
  Clip (Some pen80) 10 2 40 20 = Some (mkPen 10 2 40 20 0 0 3 4) /\
  Clip (Some (mkPen 10 2 40 20 0 0 3 4)) 5 1 30 10 = Some (mkPen 15 3 30 10 0 0 3 4) /\
  Clip (Some pen80) (10 + 5) (2 + 1) 30 10 = Some (mkPen 15 3 30 10 0 0 3 4).
Proof.
  assert (H1 : Clip (Some pen80) 10 2 40 20 = Some (mkPen 10 2 40 20 0 0 3 4))
    by reflexivity.
  assert (H2 : Clip (Some (mkPen 10 2 40 20 0 0 3 4)) 5 1 30 10
               = Some (mkPen 15 3 30 10 0 0 3 4)) by reflexivity.
  split; [exact H1|]. split; [exact H2|].
  apply (Clip_twice pen80 (mkPen 10 2 40 20 0 0 3 4) (mkPen 15 3 30 10 0 0 3 4)
           10 2 40 20 5 1 30 10 pen80_ok); try assumption;
    first [lia | unfold ClipArgs; simpl; repeat split; vm_compute; discriminate].
Defined.

(** X8.  On a pen that starts in the first column of the screen, an offset
    to the left gives nil, and so does an offset upwards on a pen that
    starts in its first row. *)
Theorem Clip_off_screen (p : Pen) (x y w h : Z) :
  (pen_x p = 0 /\ Int.min_int <= x < 0) \/ (pen_y p = 0 /\ Int.min_int <= y < 0) ->
  Clip (Some p) x y w h = None.
Proof.
  intros H. unfold Clip.
  destruct H as [[E Hx]|[E Hy]]; rewrite E.
  - assert (Ex : 0 +! x = x) by (apply wrap_id; int_unfold; lia).
    rewrite Ex. destruct (Z.ltb_spec x 0); [reflexivity|lia].
  - assert (Ey : 0 +! y = y) by (apply wrap_id; int_unfold; lia).
    rewrite Ey. destruct (Z.ltb_spec y 0); [|lia].
    destruct (_ <? 0); reflexivity.
Qed.

Lemma Clip_off_screen_witness :
  Clip (Some pen80) (-1) 0 1 1 = None.
Proof.
  apply (Clip_off_screen pen80 (-1) 0 1 1).
  left. split; [reflexivity|]. split; vm_compute; [discriminate|reflexivity].
Defined.

(** ** Requirements of rows and columns *)

Lemma wrap_add_l (a b : Z) : Int.wrap (Int.wrap a + b) = Int.wrap (a + b).
Proof.
  unfold Int.wrap. f_equal.
  replace ((a - Int.min_int) mod Int.modulus + Int.min_int + b - Int.min_int)
    with ((a - Int.min_int) mod Int.modulus + b) by lia.
  rewrite Zplus_mod_idemp_l. f_equal. lia.
Qed.

Lemma sumReq_acc (l : list (Z * Z)) : forall a b,
  fold_left (fun acc r => (fst acc +! fst r, snd acc +! snd r)) l
            (Int.wrap a, Int.wrap b)
  = (Int.wrap (a + sumZ (map fst l)), Int.wrap (b + sumZ (map snd l))).
Proof.
  induction l as [|[m n] l IH]; intros a b; cbn [fold_left map fst snd sumZ fold_right].
  - rewrite !Z.add_0_r. reflexivity.
  - change (Int.wrap a +! m) with (Int.wrap (Int.wrap a + m)).
    change (Int.wrap b +! n) with (Int.wrap (Int.wrap b + n)).
    rewrite !wrap_add_l, IH. f_equal; f_equal; unfold sumZ; lia.
Qed.

Lemma sumReq_sum (l : list (Z * Z)) :
  sumReq l = (Int.wrap (sumZ (map fst l)), Int.wrap (sumZ (map snd l))).
Proof. unfold sumReq. apply (sumReq_acc l 0 0). Qed.

(** X9.  A row asks for the sum of the widths its children ask for and for
    the greatest of their heights; a column for the greatest of the
    widths and the sum of the heights.  (Sums are [int] sums; the greatest
    is taken from 0 on.) *)
Theorem Row_Column_requirements (t : list Widget) :
  ReqWidth (Row t) =
    (Int.wrap (sumZ (map (fun c => fst (ReqWidth c)) t)),
     Int.wrap (sumZ (map (fun c => snd (ReqWidth c)) t))) /\
  ReqHeight (Row t) =
    (maxOver (map (fun c => fst (ReqHeight c)) t),
     maxOver (map (fun c => snd (ReqHeight c)) t)) /\
  ReqWidth (Column t) =
    (maxOver (map (fun c => fst (ReqWidth c)) t),
     maxOver (map (fun c => snd (ReqWidth c)) t)) /\
  ReqHeight (Column t) =
    (Int.wrap (sumZ (map (fun c => fst (ReqHeight c)) t)),
     Int.wrap (sumZ (map (fun c => snd (ReqHeight c)) t))).
Proof.
  simpl. rewrite !sumReq_sum, !maxReq_maxOver, !map_map. auto.
Qed.

(** X10.  The height a grid asks for is the sum over its rows of the
    greatest height the cells of the row ask for; no padding is added to
    it, and rows without cells add nothing. *)
Theorem Grid_ReqHeight_rows (t : list (list Widget)) :
  ReqHeight (Grid t) =
    (Int.wrap (sumZ (map (fun row => maxOver (map (fun c => fst (ReqHeight c)) row)) t)),
     Int.wrap (sumZ (map (fun row => maxOver (map (fun c => snd (ReqHeight c)) row)) t))).
Proof.
  simpl. rewrite sumReq_sum, !map_map. f_equal; f_equal; f_equal.
  - apply map_ext. intros row. rewrite maxReq_maxOver, !map_map. reflexivity.
  - apply map_ext. intros row. rewrite maxReq_maxOver, !map_map. reflexivity.
Qed.

(** ** What printing keeps *)

Lemma writes_after_out_of_fuel {A : Type} (f : A -> list Cell -> outcome (list Cell))
    (l : list A) :
  fold_left (fun acc a => do cs <~ acc; f a cs) l OutOfFuel = OutOfFuel.
Proof. induction l as [|a l IH]; simpl; [reflexivity | exact IH]. Qed.

Lemma writes_length {A : Type} (f : A -> list Cell -> outcome (list Cell))
    (l : list A) :
  (forall a cs cs', f a cs = Ok cs' -> length cs' = length cs) ->
  forall cs0 cs',
    fold_left (fun acc a => do cs <~ acc; f a cs) l (Ok cs0) = Ok cs' ->
    length cs' = length cs0.
Proof.
  intros Hf. induction l as [|a l IH]; intros cs0 cs' H; simpl in H.
  - injection H as <-. reflexivity.
  - destruct (f a cs0) as [c1| |] eqn:E.
    + rewrite (IH c1 cs' H). eapply Hf. exact E.
    + rewrite writes_after_panic in H. discriminate.
    + rewrite writes_after_out_of_fuel in H. discriminate.
Qed.

Lemma slice_set_length (b : Slice) (i : Z) (c : Cell) (cs cs' : list Cell) :
  slice_set b i c cs = Ok cs' -> length cs' = length cs.
Proof.
  unfold slice_set. destruct (_ && _); [|discriminate].
  intros H. injection H as <-. apply length_insert.
Qed.

Lemma writeRunes_length (row : Slice) (fg bg : Z) (s : string) (cs cs' : list Cell) :
  writeRunes row fg bg s cs = Ok cs' -> length cs' = length cs.
Proof.
  unfold writeRunes.
  apply (writes_length (fun ir c => slice_set row (fst ir) (mkCell (snd ir) fg bg) c)).
  intros a c c'. apply slice_set_length.
Qed.

Lemma printRow_at_keeps (p : Pen) (scr : Screen) (s : string) k p1 scr1 :
  printRow_at p scr s = Ok (k, p1, scr1) ->
  sw scr1 = sw scr /\ sh scr1 = sh scr /\
  length (cells scr1) = length (cells scr).
Proof.
  unfold printRow_at. intros H.
  destruct (slice_from _ _) as [row0| |]; simpl in H; try discriminate.
  destruct (slice_to _ _) as [row| |]; simpl in H; try discriminate.
  destruct (if _ <? _ then _ else _) as [s'| |]; simpl in H; try discriminate.
  destruct (writeRunes _ _ _ _ _) as [cs| |] eqn:Hw; simpl in H; try discriminate.
  injection H as <- <- <-. simpl.
  apply writeRunes_length in Hw. auto.
Qed.

Lemma printLoop_keeps (fuel : nat) : forall p scr s n p' scr',
  printLoop fuel p scr s n = Ok (p', scr') ->
  p' = set_cursor p (pen_dx p') (pen_dy p') /\
  sw scr' = sw scr /\ sh scr' = sh scr /\
  length (cells scr') = length (cells scr).
Proof.
  induction fuel as [|fuel IH]; intros p scr s n p' scr' H; [discriminate|].
  simpl in H. destruct (_ && _).
  - destruct (str_from s n) as [rest| |]; simpl in H; try discriminate.
    destruct (printRow_at p scr rest) as [[[k p1] scr1]| |] eqn:Hrow;
      simpl in H; try discriminate.
    pose proof (printRow_at_keeps _ _ _ _ _ _ Hrow) as (K1 & K2 & K3).
    apply printRow_at_ok in Hrow as (_ & _ & -> & _).
    apply IH in H as (H1 & H2 & H3 & H4). simpl in *.
    split; [|split; [congruence|split; congruence]].
    rewrite H1 at 1. unfold set_cursor. simpl. reflexivity.
  - injection H as <- <-. split; [destruct p; reflexivity|auto].
Qed.

(** X11.  [Print] changes nothing of the pen but its cursor: the
    rectangle and the colours are as before; and it changes no dimension
    of the screen nor the length of its buffer. *)
Theorem Print_keeps (fuel : nat) (p : Pen) (scr : Screen) (s : string)
    (r : option Pen) (scr' : Screen) :
  Print fuel (Some p) scr s = Ok (r, scr') ->
  (exists dx dy, r = Some (set_cursor p dx dy)) /\
  sw scr' = sw scr /\ sh scr' = sh scr /\
  length (cells scr') = length (cells scr).
Proof.
  unfold Print. intros H.
  destruct (printLoop fuel p scr s 0) as [[p' scr1]| |] eqn:Hl; simpl in H;
    try discriminate.
  injection H as <- <-.
  apply printLoop_keeps in Hl as (H1 & H2 & H3 & H4).
  split; [|auto]. exists (pen_dx p'), (pen_dy p'). rewrite <- H1. reflexivity.
Qed.

Lemma Print_keeps_witness :
  (exists dx dy,
     Some (mkPen 0 0 5 1 0 1 0 0) = Some (set_cursor (mkPen 0 0 5 1 0 0 0 0) dx dy)) /\
  sw (mkScreen 5 1 (cellsOf [104; 105; 0; 0; 0])) = sw (blankScreen 5 1 noCell) /\
  sh (mkScreen 5 1 (cellsOf [104; 105; 0; 0; 0])) = sh (blankScreen 5 1 noCell) /\
  length (cells (mkScreen 5 1 (cellsOf [104; 105; 0; 0; 0])))
  = length (cells (blankScreen 5 1 noCell)).
Proof.
  apply (Print_keeps 3 (mkPen 0 0 5 1 0 0 0 0) (blankScreen 5 1 noCell) "hi").
  vm_compute. reflexivity.
Defined.

Lemma printLoop_row_bound (fuel : nat) : forall p scr s n p' scr',
  printLoop fuel p scr s n = Ok (p', scr') ->
  Int.in_range (pen_dy p) -> pen_h p <= Int.max_int ->
  pen_dy p <= pen_h p -> pen_dy p' <= pen_h p.
Proof.
  induction fuel as [|fuel IH]; intros p scr s n p' scr' H Hdy Hh Hle; [discriminate|].
  simpl in H. destruct (_ && _) eqn:Hc.
  - destruct (str_from s n) as [rest| |]; simpl in H; try discriminate.
    destruct (printRow_at p scr rest) as [[[k p1] scr1]| |] eqn:Hrow;
      simpl in H; try discriminate.
    apply printRow_at_ok in Hrow as (_ & _ & -> & _).
    apply andb_prop in Hc as [_ Hlt]. apply Z.ltb_lt in Hlt. simpl in H.
    assert (Hw : pen_dy p +! 1 = pen_dy p + 1) by (apply wrap_id; int_unfold; lia).
    rewrite Hw in H. apply IH in H; simpl in *; int_unfold; lia.
  - injection H as <- <-. exact Hle.
Qed.

(** X12.  [Println] of a text that is not empty leaves a row empty: [Print]
    has already moved the cursor to the start of the row after the text,
    and [Println] moves it one row further, so that it ends two rows or
    more below the row it started on. *)
Theorem Println_skips_a_row (p : Pen) (scr : Screen) (s : string) (fuel : nat)
    (r : option Pen) (scr' : Screen) :
  s <> EmptyString ->
  pen_dy p < pen_h p ->
  Int.in_range (pen_dy p) -> pen_h p < Int.max_int ->
  Println fuel (Some p) scr s = Ok (r, scr') ->
  exists p', r = Some p' /\ pen_dx p' = 0 /\ pen_dy p + 2 <= pen_dy p'.
Proof.
  intros Hs Hrow Hdy Hh H. unfold Println, Print in H.
  destruct (printLoop fuel p scr s 0) as [[p1 scr1]| |] eqn:Hl; simpl in H;
    try discriminate.
  injection H as <- <-.
  pose proof (printLoop_row_bound _ _ _ _ _ _ _ Hl Hdy ltac:(lia) ltac:(lia)) as Hb.
  apply printLoop_cursor in Hl as (_ & _ & Hc); [|exact Hdy|lia].
  destruct Hc as [_ Hlt].
  { unfold printCond. apply andb_true_intro. split; apply Z.ltb_lt; [|exact Hrow].
    unfold len. apply length_nonempty in Hs. lia. }
  eexists. split; [reflexivity|]. simpl. split; [reflexivity|].
  assert (Hw : pen_dy p1 +! 1 = pen_dy p1 + 1) by (apply wrap_id; int_unfold; lia).
  rewrite Hw. lia.
Qed.

Lemma Println_skips_a_row_witness :
  Println 3 (Some (mkPen 0 0 5 4 0 0 0 0)) (blankScreen 5 4 noCell) "hi"
  = Ok (Some (mkPen 0 0 5 4 0 2 0 0),
        mkScreen 5 4 (cellsOf [104; 105; 0; 0; 0; 0; 0; 0; 0; 0;
                               0; 0; 0; 0; 0; 0; 0; 0; 0; 0])) /\
  exists p', Some (mkPen 0 0 5 4 0 2 0 0) = Some p' /\
             pen_dx p' = 0 /\ pen_dy (mkPen 0 0 5 4 0 0 0 0) + 2 <= pen_dy p'.
Proof.
  assert (H : Println 3 (Some (mkPen 0 0 5 4 0 0 0 0)) (blankScreen 5 4 noCell) "hi"
              = Ok (Some (mkPen 0 0 5 4 0 2 0 0),
                    mkScreen 5 4 (cellsOf [104; 105; 0; 0; 0; 0; 0; 0; 0; 0;
                                           0; 0; 0; 0; 0; 0; 0; 0; 0; 0])))
    by (vm_compute; reflexivity).
  split; [exact H|].
  apply (Println_skips_a_row (mkPen 0 0 5 4 0 0 0 0) (blankScreen 5 4 noCell) "hi" 3
           _ _ ltac:(discriminate) ltac:(reflexivity)
           ltac:(split; discriminate) ltac:(reflexivity) H).
Defined.

(** ** Loops over a range of indices *)

(** The rule of the invariant, for a loop [for i := 0; i < n; i++] whose
    body may panic. *)
Lemma fold_seqZ_inv {A : Type} (f : Z -> A -> outcome A) (P : Z -> A -> Prop)
    (n : Z) (a0 : A) :
  0 <= n -> P 0 a0 ->
  (forall i a, 0 <= i < n -> P i a -> exists a', f i a = Ok a' /\ P (i + 1) a') ->
  exists a',
    fold_left (fun acc i => do a <~ acc; f i a) (seqZ 0 n) (Ok a0) = Ok a' /\ P n a'.
Proof.
  intros Hn H0 Hstep.
  assert (Hk : forall k : nat, Z.of_nat k <= n ->
            exists a', fold_left (fun acc i => do a <~ acc; f i a)
                                 (seqZ 0 (Z.of_nat k)) (Ok a0) = Ok a' /\
                       P (Z.of_nat k) a').
  { induction k as [|k IH]; intros Hle.
    - exists a0. split; [reflexivity|exact H0].
    - destruct IH as (a & Ha & HP); [lia|].
      destruct (Hstep (Z.of_nat k) a ltac:(lia) HP) as (a' & Ha' & HP').
      exists a'. rewrite seqZ_S, fold_left_app, Ha. simpl.
      split; [exact Ha'|]. rewrite Nat2Z.inj_succ. exact HP'. }
  specialize (Hk (Z.to_nat n)). rewrite Z2Nat.id in Hk by lia. apply Hk. lia.
Qed.

(** ** What [Clear] blanks *)

(** In a buffer of rows [W] wide, the indices of the columns [lo] to [hi]
    of the row [j] are those of no other cell. *)
Lemma cell_index_row (W cx cy j lo hi : Z) :
  0 <= cx < W -> 0 <= cy -> 0 <= j -> 0 <= lo -> hi <= W ->
  (j * W + lo <= cx + cy * W < j * W + hi) <-> (cy = j /\ lo <= cx < hi).
Proof.
  intros Hcx Hcy Hj Hlo Hhi. split.
  - intros [H1 H2].
    destruct (Z.lt_trichotomy cy j) as [Hlt|[Heq|Hgt]].
    + exfalso. assert ((cy + 1) * W <= j * W) by (apply Z.mul_le_mono_nonneg_r; lia). lia.
    + subst. lia.
    + exfalso. assert ((j + 1) * W <= cy * W) by (apply Z.mul_le_mono_nonneg_r; lia). lia.
  - intros [-> H]. lia.
Qed.

Ltac bool_cases :=
  repeat match goal with
         | |- context [?a <=? ?b] => destruct (Z.leb_spec a b)
         | |- context [?a <? ?b] => destruct (Z.ltb_spec a b)
         end; simpl.

(** The inner loop of [Clear] on a row slice that starts at [off]: the
    cells [off] to [off + w - 1] are set, the others kept. *)
Lemma clearRow_cells (b : Slice) (w : Z) (cell : Cell) (cs : list Cell) :
  0 <= s_off b -> 0 <= w <= s_len b ->
  s_off b + s_len b <= Z.of_nat (length cs) ->
  exists cs',
    clearRow b w cell cs = Ok cs' /\
    length cs' = length cs /\
    forall k : Z, 0 <= k ->
      cs' !! Z.to_nat k =
      if (s_off b <=? k) && (k <? s_off b + w) then Some cell else cs !! Z.to_nat k.
Proof.
  intros Hoff Hw Hlen. unfold clearRow.
  apply (fold_seqZ_inv (fun x c => slice_set b x cell c)
           (fun i c => length c = length cs /\
                       forall k : Z, 0 <= k ->
                         c !! Z.to_nat k =
                         if (s_off b <=? k) && (k <? s_off b + i)
                         then Some cell else cs !! Z.to_nat k)).
  - lia.
  - split; [reflexivity|]. intros k Hk. bool_cases; try reflexivity; lia.
  - intros i c Hi [Hl Hc]. unfold slice_set.
    destruct (Z.leb_spec 0 i); [|lia]. destruct (Z.ltb_spec i (s_len b)); [|lia].
    simpl. eexists. split; [reflexivity|]. split; [rewrite length_insert; exact Hl|].
    intros k Hk. destruct (Z.eq_dec k (s_off b + i)) as [->|Hne].
    + rewrite list_lookup_insert_eq by lia. bool_cases; try reflexivity; lia.
    + rewrite list_lookup_insert_ne by lia. rewrite (Hc k Hk).
      bool_cases; try reflexivity; lia.
Qed.

(** X13.  On a screen that holds the pen's columns and as many rows as the
    pen is high, [Clear] returns with the cursor at the pen's origin and
    has blanked, in the pen's colours, the pen's columns of the first
    [p.h] rows of the screen, whatever the row the pen starts on; every
    other cell is as it was. *)
Theorem Clear_blanks_from_top (p : Pen) (scr : Screen) :
  Screen_ok scr ->
  0 <= pen_x p -> 0 <= pen_w p -> pen_x p + pen_w p <= sw scr ->
  0 <= pen_h p <= sh scr ->
  exists scr',
    Clear (Some p) scr = Ok (Some (set_cursor p 0 0), scr') /\
    sw scr' = sw scr /\ sh scr' = sh scr /\
    forall cx cy, 0 <= cx < sw scr -> 0 <= cy < sh scr ->
      cellAt scr' cx cy =
      if (pen_x p <=? cx) && (cx <? pen_x p + pen_w p) && (cy <? pen_h p)
      then Some (mkCell 32 (pen_fg p) (pen_bg p))
      else cellAt scr cx cy.
Proof.
  intros (HW & HH & HN & Hmax) Hx Hw Hxw Hh. unfold Clear.
  set (cell := mkCell 32 (pen_fg p) (pen_bg p)).
  destruct (fold_seqZ_inv
    (fun y c => do b <~ slice_from (CellBuffer scr) (y *! sw scr +! pen_x p);
                clearRow b (pen_w p) cell c)
    (fun j c => length c = length (cells scr) /\
                forall cx cy, 0 <= cx < sw scr -> 0 <= cy < sh scr ->
                  c !! Z.to_nat (cx + cy * sw scr) =
                  if (pen_x p <=? cx) && (cx <? pen_x p + pen_w p) && (cy <? j)
                  then Some cell else cells scr !! Z.to_nat (cx + cy * sw scr))
    (pen_h p) (cells scr)) as (cs & Hfold & Hlen & Hcells).
  - lia.
  - split; [reflexivity|]. intros cx cy Hcx Hcy. bool_cases; try reflexivity; lia.
  - intros j c Hj [Hl Hc].
    assert (Hjw : 0 <= j * sw scr) by (apply Z.mul_nonneg_nonneg; lia).
    assert (Hjn : (j + 1) * sw scr <= sw scr * sh scr).
    { rewrite (Z.mul_comm (sw scr) (sh scr)). apply Z.mul_le_mono_nonneg_r; lia. }
    assert (E1 : j *! sw scr = j * sw scr) by (apply wrap_id; int_unfold; lia).
    assert (E2 : j * sw scr +! pen_x p = j * sw scr + pen_x p)
      by (apply wrap_id; int_unfold; lia).
    rewrite E1, E2. unfold slice_from, CellBuffer. simpl s_len.
    destruct (Z.leb_spec 0 (j * sw scr + pen_x p)); [|lia].
    destruct (Z.leb_spec (j * sw scr + pen_x p) (Z.of_nat (length (cells scr)))); [|lia].
    simpl.
    destruct (clearRow_cells
                (mkSlice (0 + (j * sw scr + pen_x p))
                         (Z.of_nat (length (cells scr)) - (j * sw scr + pen_x p))
                         (Z.of_nat (length (cells scr)) - (j * sw scr + pen_x p)))
                (pen_w p) cell c) as (c' & Hc' & Hl' & Hk'); simpl; try lia.
    exists c'. split; [exact Hc'|]. split; [congruence|].
    intros cx cy Hcx Hcy.
    assert (Hcyw : 0 <= cy * sw scr) by (apply Z.mul_nonneg_nonneg; lia).
    simpl in Hk'. rewrite (Hk' (cx + cy * sw scr)) by lia. rewrite (Hc cx cy Hcx Hcy).
    destruct (cell_index_row (sw scr) cx cy j (pen_x p) (pen_x p + pen_w p)
                Hcx ltac:(lia) ltac:(lia) Hx Hxw) as [Hidx1 Hidx2].
    bool_cases; try reflexivity; exfalso; lia.
  - rewrite Hfold. simpl. eexists. split; [reflexivity|]. simpl.
    split; [reflexivity|]. split; [reflexivity|].
    intros cx cy Hcx Hcy. unfold cellAt. simpl. apply Hcells; assumption.
Qed.

Lemma Clear_blanks_from_top_witness :
  exists scr',
    Clear (Some (mkPen 1 1 1 1 0 0 7 8)) (blankScreen 3 2 noCell)
    = Ok (Some (set_cursor (mkPen 1 1 1 1 0 0 7 8) 0 0), scr') /\
    sw scr' = 3 /\ sh scr' = 2 /\
    forall cx cy, 0 <= cx < 3 -> 0 <= cy < 2 ->
      cellAt scr' cx cy =
      if (1 <=? cx) && (cx <? 1 + 1) && (cy <? 1)
      then Some (mkCell 32 7 8)
      else cellAt (blankScreen 3 2 noCell) cx cy.
Proof.
  apply (Clear_blanks_from_top (mkPen 1 1 1 1 0 0 7 8) (blankScreen 3 2 noCell)).
  - unfold Screen_ok. simpl. repeat split; vm_compute; try discriminate; reflexivity.
  - simpl. lia.
  - simpl. lia.
  - simpl. lia.
  - simpl. lia.
Defined.

(** ** Printing ASCII text *)

Lemma substring_all (s : string) : substring 0 (String.length s) s = s.
Proof. induction s as [|c s IH]; simpl; [reflexivity|]. rewrite IH. reflexivity. Qed.

Lemma bytes_length (s : string) : length (bytes s) = String.length s.
Proof.
  unfold bytes. rewrite length_map.
  induction s as [|c s IH]; simpl; [reflexivity|]. rewrite IH. reflexivity.
Qed.

Lemma rangeFrom_ascii_cons (b : Z) (bs : list Z) (i : Z) :
  b < 128 -> rangeFrom 0 i (b :: bs) = (i, b) :: rangeFrom 0 (i + 1) bs.
Proof.
  intros Hb. cbn [rangeFrom]. unfold decodeRune.
  destruct (Z.ltb_spec b 128); [reflexivity|lia].
Qed.

Lemma rangeFrom_ascii_length (bs : list Z) : forall i,
  Forall (fun b => b < 128) bs -> length (rangeFrom 0 i bs) = length bs.
Proof.
  induction bs as [|b bs IH]; intros i H; [reflexivity|].
  inversion H; subst. rewrite rangeFrom_ascii_cons by assumption.
  simpl. rewrite IH by assumption. reflexivity.
Qed.

Lemma RuneCount_ascii (s : string) : is_ascii s -> RuneCountInString s = len s.
Proof.
  intros H. unfold RuneCountInString, rangeString, len.
  rewrite rangeFrom_ascii_length by exact H. rewrite bytes_length. reflexivity.
Qed.

(** The loop over the runes of ASCII bytes that fit in the row: the byte
    at offset [j] goes to the cell [j] of the row. *)
Lemma writes_ascii (row : Slice) (fg bg : Z) (bs : list Z) : forall i cs,
  Forall (fun b => b < 128) bs ->
  0 <= i -> i + Z.of_nat (length bs) <= s_len row ->
  0 <= s_off row -> s_off row + s_len row <= Z.of_nat (length cs) ->
  exists cs',
    fold_left (fun acc ir =>
                 do c <~ acc; slice_set row (fst ir) (mkCell (snd ir) fg bg) c)
              (rangeFrom 0 i bs) (Ok cs) = Ok cs' /\
    length cs' = length cs /\
    forall k : Z, 0 <= k ->
      cs' !! Z.to_nat k =
      if (s_off row + i <=? k) && (k <? s_off row + i + Z.of_nat (length bs))
      then (fun b => mkCell b fg bg) <$> bs !! Z.to_nat (k - s_off row - i)
      else cs !! Z.to_nat k.
Proof.
  induction bs as [|b bs IH]; intros i cs Hascii Hi Hfit Hoff Hlen.
  - exists cs. split; [reflexivity|]. split; [reflexivity|].
    intros k Hk. simpl. bool_cases; try reflexivity; lia.
  - inversion Hascii as [|? ? Hb Hrest]; subst.
    rewrite rangeFrom_ascii_cons by exact Hb.
    simpl length in Hfit. rewrite Nat2Z.inj_succ in Hfit.
    cbn [fold_left bind fst snd]. unfold slice_set at 2.
    destruct (Z.leb_spec 0 i); [|lia]. destruct (Z.ltb_spec i (s_len row)); [|lia].
    cbn [andb].
    destruct (IH (i + 1) (<[Z.to_nat (s_off row + i) := mkCell b fg bg]> cs) Hrest)
      as (cs' & Hf & Hl & Hk); try lia.
    { rewrite length_insert. lia. }
    exists cs'. split; [exact Hf|]. split; [rewrite Hl; apply length_insert|].
    intros k Hk0. rewrite (Hk k Hk0). simpl length. rewrite Nat2Z.inj_succ.
    destruct (Z.eq_dec k (s_off row + i)) as [->|Hne].
    + rewrite list_lookup_insert_eq by lia.
      replace (s_off row + i - s_off row - i) with 0 by lia.
      bool_cases; try reflexivity; lia.
    + rewrite list_lookup_insert_ne by lia.
      bool_cases; try reflexivity; try lia.
      replace (Z.to_nat (k - s_off row - i)) with (S (Z.to_nat (k - s_off row - (i + 1))))
        by lia.
      reflexivity.
Qed.

(** The same loop with more ASCII bytes than the row has cells. *)
Lemma writes_ascii_overflow (row : Slice) (fg bg : Z) (bs : list Z) : forall i cs,
  Forall (fun b => b < 128) bs ->
  0 <= i <= s_len row -> s_len row < i + Z.of_nat (length bs) ->
  fold_left (fun acc ir =>
               do c <~ acc; slice_set row (fst ir) (mkCell (snd ir) fg bg) c)
            (rangeFrom 0 i bs) (Ok cs) = Panic.
Proof.
  induction bs as [|b bs IH]; intros i cs Hascii Hi Hover.
  - simpl in Hover. lia.
  - inversion Hascii as [|? ? Hb Hrest]; subst.
    rewrite rangeFrom_ascii_cons by exact Hb.
    simpl length in Hover. rewrite Nat2Z.inj_succ in Hover.
    cbn [fold_left bind fst snd]. unfold slice_set at 2.
    destruct (Z.leb_spec 0 i); [|lia].
    destruct (Z.ltb_spec i (s_len row)); cbn [andb].
    + apply IH; [exact Hrest|lia|lia].
    + apply (writes_after_panic
               (fun ir c => slice_set row (fst ir) (mkCell (snd ir) fg bg) c)).
Qed.

Lemma str_from_0 (s : string) : str_from s 0 = Ok s.
Proof.
  unfold str_from, len. simpl.
  destruct (Z.leb_spec 0 (Z.of_nat (String.length s))); [|lia].
  simpl. rewrite Nat.sub_0_r, substring_all. reflexivity.
Qed.

(** X14.  An ASCII text that fits in what is left of the cursor's row is
    printed from the cursor on, one cell for each character in the pen's
    colours; no other cell of the screen is touched, and the cursor moves
    to the start of the next row. *)
Theorem Print_ascii_fits (p : Pen) (scr : Screen) (s : string) (fuel : nat) :
  Screen_ok scr ->
  0 <= pen_x p -> pen_x p + pen_w p <= sw scr ->
  0 <= pen_y p -> pen_y p + pen_h p <= sh scr ->
  0 <= pen_dx p -> 0 <= pen_dy p < pen_h p ->
  is_ascii s -> 1 <= len s <= pen_w p - pen_dx p ->
  exists scr',
    Print (S (S fuel)) (Some p) scr s
    = Ok (Some (set_cursor p 0 (pen_dy p + 1)), scr') /\
    forall cx cy, 0 <= cx < sw scr -> 0 <= cy < sh scr ->
      cellAt scr' cx cy =
      if (cy =? pen_y p + pen_dy p) && (pen_x p + pen_dx p <=? cx)
         && (cx <? pen_x p + pen_dx p + len s)
      then cellOfByte p s (cx - (pen_x p + pen_dx p))
      else cellAt scr cx cy.
Proof.
  intros (HW & HH & HN & Hmax) Hx Hxw Hy Hyh Hdx Hdy Hascii Hlen.
  remember (sw scr) as W eqn:HW_def.
  remember (Z.of_nat (length (cells scr))) as N eqn:HN_def.
  remember (pen_dy p + pen_y p) as y eqn:Hy_def.
  remember (pen_dx p + pen_x p) as x eqn:Hx_def.
  assert (HyW : 0 <= y * W) by (apply Z.mul_nonneg_nonneg; lia).
  assert (Hy1 : (y + 1) * W <= W * sh scr).
  { rewrite (Z.mul_comm W (sh scr)). apply Z.mul_le_mono_nonneg_r; lia. }
  assert (HW1 : W * 1 <= W * sh scr) by (apply Z.mul_le_mono_nonneg_l; lia).
  assert (HH1 : 1 * sh scr <= W * sh scr) by (apply Z.mul_le_mono_nonneg_r; lia).
  assert (Ex : pen_dx p +! pen_x p = x)
    by (unfold Int.add; rewrite <- Hx_def; apply wrap_id; int_unfold; lia).
  assert (Ey : pen_dy p +! pen_y p = y)
    by (unfold Int.add; rewrite <- Hy_def; apply wrap_id; int_unfold; lia).
  assert (Em : y *! W = y * W) by (apply wrap_id; int_unfold; lia).
  assert (Eo : x +! y * W = x + y * W) by (apply wrap_id; int_unfold; lia).
  assert (Ek : pen_w p -! pen_dx p = pen_w p - pen_dx p)
    by (apply wrap_id; int_unfold; lia).
  assert (Ed : pen_dy p +! 1 = pen_dy p + 1) by (apply wrap_id; int_unfold; lia).
  assert (Hb : 0 + Z.of_nat (length (bytes s)) <= pen_w p - pen_dx p).
  { rewrite bytes_length. unfold len in Hlen. lia. }
  destruct (writes_ascii (mkSlice (0 + (x + y * W)) (pen_w p - pen_dx p) (N - (x + y * W)))
              (pen_fg p) (pen_bg p) (bytes s) 0 (cells scr) Hascii
              ltac:(lia) Hb ltac:(simpl; lia) ltac:(simpl; lia))
    as (cs & Hw & Hl & Hk).
  assert (Hrow : printRow_at p scr s
                 = Ok (pen_w p - pen_dx p,
                       set_cursor p (pen_dx p +! (pen_w p - pen_dx p)) (pen_dy p),
                       mkScreen W (sh scr) cs)).
  { unfold printRow_at. rewrite <- HW_def. rewrite Ex, Ey, Em, Eo.
    unfold slice_from, CellBuffer. rewrite <- HN_def. simpl s_len.
    destruct (Z.leb_spec 0 (x + y * W)); [|lia].
    destruct (Z.leb_spec (x + y * W) N); [|lia]. cbn [andb bind].
    unfold slice_to. rewrite Ek. simpl s_cap.
    destruct (Z.leb_spec 0 (pen_w p - pen_dx p)); [|lia].
    destruct (Z.leb_spec (pen_w p - pen_dx p) (N - (x + y * W))); [|lia].
    cbn [andb bind]. simpl s_len. rewrite (RuneCount_ascii s Hascii).
    destruct (Z.ltb_spec (pen_w p - pen_dx p) (len s)); [lia|]. cbn [bind].
    unfold writeRunes, rangeString. simpl s_off. rewrite Hw. reflexivity. }
  exists (mkScreen W (sh scr) cs). split.
  - unfold Print. cbn [printLoop].
    destruct (Z.ltb_spec 0 (len s)); [|lia].
    destruct (Z.ltb_spec (pen_dy p) (pen_h p)); [|lia]. cbn [andb].
    rewrite str_from_0. cbn [bind]. rewrite Hrow. cbn [bind].
    assert (En : 0 +! (pen_w p - pen_dx p) = pen_w p - pen_dx p)
      by (apply wrap_id; int_unfold; lia).
    rewrite En. destruct (Z.ltb_spec (pen_w p - pen_dx p) (len s)); [lia|].
    cbn [andb bind fst snd]. unfold set_cursor. simpl. rewrite Ed. reflexivity.
  - intros cx cy Hcx Hcy. unfold cellAt. simpl cells. simpl sw. rewrite <- !HW_def.
    assert (Hcw : 0 <= cy * W) by (apply Z.mul_nonneg_nonneg; lia).
    rewrite (Hk (cx + cy * W)) by lia. simpl s_off. rewrite bytes_length.
    fold (len s).
    destruct (cell_index_row W cx cy y x (x + len s)
                Hcx ltac:(lia) ltac:(lia) ltac:(lia) ltac:(lia)) as [I1 I2].
    unfold cellOfByte.
    destruct (Z.eqb_spec cy (pen_y p + pen_dy p)); bool_cases;
      try reflexivity; try (exfalso; lia).
    subst cy. f_equal. f_equal. lia.
Qed.

Lemma Print_ascii_fits_witness :
  exists scr',
    Print 2 (Some (mkPen 1 1 3 1 0 0 7 8)) (blankScreen 5 2 noCell) "hi"
    = Ok (Some (set_cursor (mkPen 1 1 3 1 0 0 7 8) 0 (0 + 1)), scr') /\
    forall cx cy, 0 <= cx < 5 -> 0 <= cy < 2 ->
      cellAt scr' cx cy =
      if (cy =? 1 + 0) && (1 + 0 <=? cx) && (cx <? 1 + 0 + len "hi")
      then cellOfByte (mkPen 1 1 3 1 0 0 7 8) "hi" (cx - (1 + 0))
      else cellAt (blankScreen 5 2 noCell) cx cy.
Proof.
  apply (Print_ascii_fits (mkPen 1 1 3 1 0 0 7 8) (blankScreen 5 2 noCell) "hi" 0).
  - unfold Screen_ok. simpl. repeat split; vm_compute; try discriminate; reflexivity.
  - simpl. lia.
  - simpl. lia.
  - simpl. lia.
  - simpl. lia.
  - simpl. lia.
  - simpl. lia.
  - repeat constructor.
  - vm_compute. split; discriminate.
Defined.

Lemma slice_from_cases (b : Slice) (a : Z) :
  slice_from b a = Panic \/ exists r, slice_from b a = Ok r.
Proof. unfold slice_from. destruct (_ && _); eauto. Qed.

(** X15.  An ASCII text longer than what is left of the cursor's row is not
    cut to the row nor wrapped to the next one: [Print] panics, on the
    index of the first character that has no cell in the row (or before,
    on the row itself where the pen reaches out of the buffer). *)
Theorem Print_ascii_too_long_panics (p : Pen) (scr : Screen) (s : string)
    (fuel : nat) :
  is_ascii s -> s <> EmptyString ->
  pen_dy p < pen_h p ->
  Int.in_range (pen_w p - pen_dx p) -> pen_w p - pen_dx p < len s ->
  Print (S fuel) (Some p) scr s = Panic.
Proof.
  intros Hascii Hs Hrow Hr Hlong. unfold Print. cbn [printLoop].
  assert (Hpos : 0 < len s) by (unfold len; apply length_nonempty in Hs; lia).
  destruct (Z.ltb_spec 0 (len s)); [|lia].
  destruct (Z.ltb_spec (pen_dy p) (pen_h p)); [|lia]. cbn [andb].
  rewrite str_from_0. cbn [bind].
  assert (Hp : printRow_at p scr s = Panic); [|rewrite Hp; reflexivity].
  unfold printRow_at.
  destruct (slice_from_cases (CellBuffer scr)
              (pen_dx p +! pen_x p +! (pen_dy p +! pen_y p) *! sw scr))
    as [->|[row0 ->]]; [reflexivity|]. cbn [bind].
  assert (Ek : pen_w p -! pen_dx p = pen_w p - pen_dx p) by (apply wrap_id; exact Hr).
  rewrite Ek. unfold slice_to.
  destruct (Z.leb_spec 0 (pen_w p - pen_dx p)); [|reflexivity].
  destruct (Z.leb_spec (pen_w p - pen_dx p) (s_cap row0)); [|reflexivity].
  cbn [andb bind]. simpl s_len. rewrite (RuneCount_ascii s Hascii).
  destruct (Z.ltb_spec (pen_w p - pen_dx p) (len s)); [|lia].
  unfold str_to.
  destruct (Z.leb_spec 0 (len s)); [|lia]. destruct (Z.leb_spec (len s) (len s)); [|lia].
  cbn [andb bind]. unfold len at 1. rewrite Nat2Z.id, substring_all.
  unfold writeRunes, rangeString.
  rewrite writes_ascii_overflow; [reflexivity|exact Hascii|simpl; lia|].
  simpl. rewrite bytes_length. unfold len in Hlong. lia.
Qed.

Lemma Print_ascii_too_long_panics_witness :
  Print 1 (Some (mkPen 0 0 3 2 0 0 0 0)) (blankScreen 3 2 noCell) "hello" = Panic.
Proof.
  apply (Print_ascii_too_long_panics (mkPen 0 0 3 2 0 0 0 0) (blankScreen 3 2 noCell)
           "hello" 0).
  - repeat constructor.
  - discriminate.
  - reflexivity.
  - split; vm_compute; discriminate.
  - reflexivity.
Defined.

(** ** Drawing a tree of widgets *)

Lemma Draw_Row (fuel : nat) (t : list Widget) (p : option Pen) (scr : Screen) :
  Draw fuel (Row t) p scr =
  match fitSize ReqWidth fuel (Width p) t with
  | None => OutOfFuel
  | Some sz =>
      do scr' <~ Row_children (Draw fuel) p (Height p) t sz 0 scr; Ok (p, scr')
  end.
Proof. reflexivity. Qed.

Lemma Draw_Column (fuel : nat) (t : list Widget) (p : option Pen) (scr : Screen) :
  Draw fuel (Column t) p scr =
  match fitSize ReqHeight fuel (Height p) t with
  | None => OutOfFuel
  | Some sz =>
      do scr' <~ Column_children (Draw fuel) p (Width p) t sz 0 scr; Ok (p, scr')
  end.
Proof. reflexivity. Qed.

Lemma Draw_Grid (fuel : nat) (t : list (list Widget)) (p : option Pen) (scr : Screen) :
  Draw fuel (Grid t) p scr =
  do wh <~ gridSizes t 0 (replicate (gridCols t) 0) (replicate (length t) 0);
  do scr' <~ Grid_rows (Draw fuel) p (fst wh) (snd wh) t 0%nat 0 scr;
  Ok (p, scr').
Proof.
  cbn [Draw]. destruct (gridSizes _ _ _ _) as [[w h]| |]; reflexivity.
Qed.

(** Induction on a widget, with the property for the children of a row, of
    a column and of a grid. *)
Lemma Widget_induction (P : Widget -> Prop)
    (HLabel : forall t, P (Label t))
    (HBlank : forall a b c d, P (Blank a b c d))
    (HTint : forall fg bg w, P w -> P (Tint fg bg w))
    (HRow : forall t, Forall P t -> P (Row t))
    (HColumn : forall t, Forall P t -> P (Column t))
    (HGrid : forall t, Forall (Forall P) t -> P (Grid t)) :
  forall w, P w.
Proof.
  fix IH 1. intros w. destruct w as [t|a b c d|fg bg w|t|t|t].
  - apply HLabel.
  - apply HBlank.
  - apply HTint, IH.
  - apply HRow. induction t as [|c t IHt]; constructor; [apply IH | exact IHt].
  - apply HColumn. induction t as [|c t IHt]; constructor; [apply IH | exact IHt].
  - apply HGrid. induction t as [|row t IHt]; constructor; [|exact IHt].
    induction row as [|c row IHrow]; constructor; [apply IH | exact IHrow].
Qed.

Section NilPen.

Variable draw : Widget -> option Pen -> Screen -> outcome (option Pen * Screen).

Lemma Row_children_nil (h : Z) (t : list Widget) : Forall (inert draw) t ->
  forall sz x scr scr', Row_children draw None h t sz x scr = Ok scr' -> scr' = scr.
Proof.
  induction 1 as [|c t Hc _ IH]; intros sz x scr scr' H; simpl in H.
  - injection H as <-. reflexivity.
  - destruct sz as [|tw sz]; [discriminate|].
    destruct (draw c None scr) as [[r scr1]| |] eqn:E; simpl in H; try discriminate.
    apply Hc in E as [_ ->]. eapply IH. exact H.
Qed.

Lemma Column_children_nil (w : Z) (t : list Widget) : Forall (inert draw) t ->
  forall sz y scr scr', Column_children draw None w t sz y scr = Ok scr' -> scr' = scr.
Proof.
  induction 1 as [|c t Hc _ IH]; intros sz y scr scr' H; simpl in H.
  - injection H as <-. reflexivity.
  - destruct sz as [|th sz]; [discriminate|].
    destruct (draw c None scr) as [[r scr1]| |] eqn:E; simpl in H; try discriminate.
    apply Hc in E as [_ ->]. eapply IH. exact H.
Qed.

Lemma Grid_cols_nil (w : list Z) (y hi : Z) (row : list Widget) : Forall (inert draw) row ->
  forall j x scr scr', Grid_cols draw None w y hi row j x scr = Ok scr' -> scr' = scr.
Proof.
  induction 1 as [|c row Hc _ IH]; intros j x scr scr' H; simpl in H.
  - injection H as <-. reflexivity.
  - destruct (index w j) as [wj| |]; simpl in H; try discriminate.
    destruct (draw c None scr) as [[r scr1]| |] eqn:E; simpl in H; try discriminate.
    apply Hc in E as [_ ->]. eapply IH. exact H.
Qed.

Lemma Grid_rows_nil (w h : list Z) (t : list (list Widget)) : Forall (Forall (inert draw)) t ->
  forall i y scr scr', Grid_rows draw None w h t i y scr = Ok scr' -> scr' = scr.
Proof.
  induction 1 as [|row t Hrow _ IH]; intros i y scr scr' H; simpl in H.
  - injection H as <-. reflexivity.
  - destruct (index h i) as [hi| |]; simpl in H; try discriminate.
    destruct (Grid_cols draw None w y hi row 0%nat 0 scr) as [scr1| |] eqn:E;
      simpl in H; try discriminate.
    apply (Grid_cols_nil _ _ _ _ Hrow) in E as ->. eapply IH. exact H.
Qed.

End NilPen.

(** X16.  Drawing with a nil pen draws nothing, whatever the widget: the
    children of a container are handed the nil pen in turn, and the
    screen is returned as it was. *)
Theorem Draw_nil_pen (w : Widget) :
  forall (fuel : nat) (scr : Screen) (r : option Pen) (scr' : Screen),
    Draw fuel w None scr = Ok (r, scr') -> r = None /\ scr' = scr.
Proof.
  induction w as [t|a b c d|fg bg w IH|t IH|t IH|t IH] using Widget_induction;
    intros fuel scr r scr' H.
  - simpl in H. injection H as <- <-. auto.
  - simpl in H. injection H as <- <-. auto.
  - simpl in H. destruct (negb (fg =? 0)), (negb (bg =? 0)); simpl in H;
      eapply IH; exact H.
  - rewrite Draw_Row in H. destruct (fitSize _ _ _ _) as [sz|]; [|discriminate].
    destruct (Row_children _ _ _ _ _ _ _) as [scr1| |] eqn:E; simpl in H;
      try discriminate.
    injection H as <- <-. split; [reflexivity|].
    eapply (Row_children_nil (Draw fuel)); [|exact E].
    eapply List.Forall_impl; [|exact IH]. intros c Hc s0 r0 s1. apply Hc.
  - rewrite Draw_Column in H. destruct (fitSize _ _ _ _) as [sz|]; [|discriminate].
    destruct (Column_children _ _ _ _ _ _ _) as [scr1| |] eqn:E; simpl in H;
      try discriminate.
    injection H as <- <-. split; [reflexivity|].
    eapply (Column_children_nil (Draw fuel)); [|exact E].
    eapply List.Forall_impl; [|exact IH]. intros c Hc s0 r0 s1. apply Hc.
  - rewrite Draw_Grid in H.
    destruct (gridSizes _ _ _ _) as [[ws hs]| |]; simpl in H; try discriminate.
    destruct (Grid_rows _ _ _ _ _ _ _ _) as [scr1| |] eqn:E; simpl in H;
      try discriminate.
    injection H as <- <-. split; [reflexivity|].
    eapply (Grid_rows_nil (Draw fuel)); [|exact E].
    eapply List.Forall_impl; [|exact IH]. intros row Hrow.
    eapply List.Forall_impl; [|exact Hrow]. intros c Hc s0 r0 s1. apply Hc.
Qed.

Lemma Draw_nil_pen_witness :
  Draw 3 (Row [Label "a"; Column [Blank 0 9 0 0; Grid [[Label "b"]]]]) None
       (blankScreen 4 2 noCell)
  = Ok (None, blankScreen 4 2 noCell) /\
  (@None Pen = None /\ blankScreen 4 2 noCell = blankScreen 4 2 noCell).
Proof.
  assert (H : Draw 3 (Row [Label "a"; Column [Blank 0 9 0 0; Grid [[Label "b"]]]]) None
                   (blankScreen 4 2 noCell)
              = Ok (None, blankScreen 4 2 noCell)) by (vm_compute; reflexivity).
  split; [exact H|]. exact (Draw_nil_pen _ 3 _ _ _ H).
Defined.

Lemma same_size_refl (a : Screen) : same_size a a.
Proof. unfold same_size. auto. Qed.

Lemma same_size_trans (a b c : Screen) : same_size a b -> same_size b c -> same_size a c.
Proof. unfold same_size. intros (? & ? & ?) (? & ? & ?). repeat split; congruence. Qed.

Section KeepsSize.

Variable draw : Widget -> option Pen -> Screen -> outcome (option Pen * Screen).

Lemma Row_children_size (p : option Pen) (h : Z) (t : list Widget) : Forall (keeps draw) t ->
  forall sz x scr scr', Row_children draw p h t sz x scr = Ok scr' -> same_size scr scr'.
Proof.
  induction 1 as [|c t Hc _ IH]; intros sz x scr scr' H; simpl in H.
  - injection H as <-. apply same_size_refl.
  - destruct sz as [|tw sz]; [discriminate|].
    destruct (draw c (Clip p x 0 tw h) scr) as [[r scr1]| |] eqn:E; simpl in H;
      try discriminate.
    eapply same_size_trans; [eapply Hc; exact E | eapply IH; exact H].
Qed.

Lemma Column_children_size (p : option Pen) (w : Z) (t : list Widget) : Forall (keeps draw) t ->
  forall sz y scr scr', Column_children draw p w t sz y scr = Ok scr' -> same_size scr scr'.
Proof.
  induction 1 as [|c t Hc _ IH]; intros sz y scr scr' H; simpl in H.
  - injection H as <-. apply same_size_refl.
  - destruct sz as [|th sz]; [discriminate|].
    destruct (draw c (Clip p 0 y w th) scr) as [[r scr1]| |] eqn:E; simpl in H;
      try discriminate.
    eapply same_size_trans; [eapply Hc; exact E | eapply IH; exact H].
Qed.

Lemma Grid_cols_size (p : option Pen) (w : list Z) (y hi : Z) (row : list Widget) :
  Forall (keeps draw) row ->
  forall j x scr scr', Grid_cols draw p w y hi row j x scr = Ok scr' -> same_size scr scr'.
Proof.
  induction 1 as [|c row Hc _ IH]; intros j x scr scr' H; simpl in H.
  - injection H as <-. apply same_size_refl.
  - destruct (index w j) as [wj| |]; simpl in H; try discriminate.
    destruct (draw c (Clip p x y wj hi) scr) as [[r scr1]| |] eqn:E; simpl in H;
      try discriminate.
    eapply same_size_trans; [eapply Hc; exact E | eapply IH; exact H].
Qed.

Lemma Grid_rows_size (p : option Pen) (w h : list Z) (t : list (list Widget)) :
  Forall (Forall (keeps draw)) t ->
  forall i y scr scr', Grid_rows draw p w h t i y scr = Ok scr' -> same_size scr scr'.
Proof.
  induction 1 as [|row t Hrow _ IH]; intros i y scr scr' H; simpl in H.
  - injection H as <-. apply same_size_refl.
  - destruct (index h i) as [hi| |]; simpl in H; try discriminate.
    destruct (Grid_cols draw p w y hi row 0%nat 0 scr) as [scr1| |] eqn:E;
      simpl in H; try discriminate.
    eapply same_size_trans;
      [eapply Grid_cols_size; [exact Hrow | exact E] | eapply IH; exact H].
Qed.

End KeepsSize.

(** X17.  Drawing a widget, whatever it is made of, never changes the
    dimensions of the screen nor the length of its buffer: cells are only
    written in place. *)
Theorem Draw_keeps_size (w : Widget) :
  forall (fuel : nat) (p : option Pen) (scr : Screen) (r : option Pen)
         (scr' : Screen),
    Draw fuel w p scr = Ok (r, scr') -> same_size scr scr'.
Proof.
  induction w as [t|a b c d|fg bg w IH|t IH|t IH|t IH] using Widget_induction;
    intros fuel p scr r scr' H.
  - simpl in H. unfold Print in H. destruct p as [p|].
    + destruct (printLoop fuel p scr t 0) as [[p1 scr1]| |] eqn:E; simpl in H;
        try discriminate.
      injection H as <- <-. apply printLoop_keeps in E as (_ & E). exact E.
    + injection H as <- <-. apply same_size_refl.
  - simpl in H. injection H as <- <-. apply same_size_refl.
  - simpl in H. eapply IH. exact H.
  - rewrite Draw_Row in H. destruct (fitSize _ _ _ _) as [sz|]; [|discriminate].
    destruct (Row_children _ _ _ _ _ _ _) as [scr1| |] eqn:E; simpl in H;
      try discriminate.
    injection H as <- <-.
    eapply (Row_children_size (Draw fuel)); [|exact E].
    eapply List.Forall_impl; [|exact IH]. intros c Hc p0 s0 r0 s1. apply Hc.
  - rewrite Draw_Column in H. destruct (fitSize _ _ _ _) as [sz|]; [|discriminate].
    destruct (Column_children _ _ _ _ _ _ _) as [scr1| |] eqn:E; simpl in H;
      try discriminate.
    injection H as <- <-.
    eapply (Column_children_size (Draw fuel)); [|exact E].
    eapply List.Forall_impl; [|exact IH]. intros c Hc p0 s0 r0 s1. apply Hc.
  - rewrite Draw_Grid in H.
    destruct (gridSizes _ _ _ _) as [[ws hs]| |]; simpl in H; try discriminate.
    destruct (Grid_rows _ _ _ _ _ _ _ _) as [scr1| |] eqn:E; simpl in H;
      try discriminate.
    injection H as <- <-.
    eapply (Grid_rows_size (Draw fuel)); [|exact E].
    eapply List.Forall_impl; [|exact IH]. intros row Hrow.
    eapply List.Forall_impl; [|exact Hrow]. intros c Hc p0 s0 r0 s1. apply Hc.
Qed.

Lemma Draw_keeps_size_witness :
  Draw 3 (Row [Label "a"; Label "bb"]) (Some (mkPen 0 0 10 1 0 0 0 0)) (blankScreen 10 1 noCell)
  = Ok (Some (mkPen 0 0 10 1 0 0 0 0),
        mkScreen 10 1 (cellsOf [97; 98; 98; 0; 0; 0; 0; 0; 0; 0])) /\
  same_size (blankScreen 10 1 noCell)
            (mkScreen 10 1 (cellsOf [97; 98; 98; 0; 0; 0; 0; 0; 0; 0])).
Proof.
  assert (H : Draw 3 (Row [Label "a"; Label "bb"]) (Some (mkPen 0 0 10 1 0 0 0 0))
                   (blankScreen 10 1 noCell)
              = Ok (Some (mkPen 0 0 10 1 0 0 0 0),
                    mkScreen 10 1 (cellsOf [97; 98; 98; 0; 0; 0; 0; 0; 0; 0])))
    by (vm_compute; reflexivity).
  split; [exact H|]. exact (Draw_keeps_size _ 3 _ _ _ _ H).
Defined.

(** ** The sizes of the columns and rows of a grid *)

Lemma raise_max (l : list Z) (i : nat) (n v : Z) :
  l !! i = Some v -> raise l i n = Ok (<[i := Z.max v n]> l).
Proof.
  intros H. unfold raise, index. rewrite H. simpl. f_equal.
  destruct (Z.gtb_spec n v).
  - rewrite Z.max_r by lia. reflexivity.
  - rewrite Z.max_l by lia. symmetry. apply list_insert_id. exact H.
Qed.

Lemma gridRow_sizes (row : list Widget) : forall i j w h hi,
  (j + length row <= length w)%nat -> h !! i = Some hi ->
  exists w',
    gridRow row i j w h
    = Ok (w', <[i := fold_right Z.max hi (map (fun c => fst (ReqHeight c)) row)]> h) /\
    length w' = length w /\
    forall k v, w !! k = Some v ->
      w' !! k = Some (if (j <=? k)%nat
                      then match row !! (k - j)%nat with
                           | Some c => Z.max v (fst (ReqWidth c))
                           | None => v
                           end
                      else v).
Proof.
  induction row as [|c row IH]; intros i j w h hi Hw Hh.
  - exists w. simpl. rewrite list_insert_id by exact Hh.
    split; [reflexivity|]. split; [reflexivity|].
    intros k v Hk. rewrite Hk. destruct (j <=? k)%nat; [|reflexivity].
    destruct (k - j)%nat; reflexivity.
  - simpl length in Hw.
    destruct (lookup_lt_is_Some_2 w j ltac:(lia)) as [wj Hwj].
    cbn [gridRow]. rewrite (raise_max w j _ wj Hwj). cbn [bind].
    rewrite (raise_max h i _ hi Hh). cbn [bind].
    destruct (IH i (S j) (<[j := Z.max wj (fst (ReqWidth c))]> w)
                 (<[i := Z.max hi (fst (ReqHeight c))]> h)
                 (Z.max hi (fst (ReqHeight c))))
      as (w' & Hrow & Hl & Hk).
    { rewrite length_insert. lia. }
    { apply list_lookup_insert_eq. apply lookup_lt_is_Some_1. eauto. }
    exists w'. split.
    { rewrite Hrow. f_equal. f_equal. rewrite list_insert_insert_eq.
      f_equal. simpl. rewrite fold_max_acc. lia. }
    split; [rewrite Hl; apply length_insert|].
    intros k v Hv. destruct (Nat.eq_dec k j) as [->|Hne].
    + rewrite Hv in Hwj. injection Hwj as <-.
      rewrite (Hk j (Z.max v (fst (ReqWidth c)))).
      * destruct (Nat.leb_spec (S j) j); [lia|].
        rewrite Nat.leb_refl, Nat.sub_diag. reflexivity.
      * apply list_lookup_insert_eq. apply lookup_lt_is_Some_1. eauto.
    + rewrite (Hk k v) by (rewrite list_lookup_insert_ne by lia; exact Hv).
      destruct (Nat.leb_spec (S j) k), (Nat.leb_spec j k); try lia; [|reflexivity].
      replace (k - j)%nat with (S (k - S j)) by lia. reflexivity.
Qed.

Lemma gridColumn_cons (row : list Widget) (t : list (list Widget)) (k : nat) :
  gridColumn (row :: t) k =
  match row !! k with Some c => c :: gridColumn t k | None => gridColumn t k end.
Proof. unfold gridColumn. simpl. destruct (row !! k); reflexivity. Qed.

Lemma gridSizes_sizes (t : list (list Widget)) : forall i w h,
  Forall (fun row : list Widget => (length row <= length w)%nat) t ->
  (i + length t <= length h)%nat ->
  exists w' h',
    gridSizes t i w h = Ok (w', h') /\
    length w' = length w /\ length h' = length h /\
    (forall k v, w !! k = Some v ->
       w' !! k = Some (fold_right Z.max v
                         (map (fun c => fst (ReqWidth c)) (gridColumn t k)))) /\
    (forall k v, h !! k = Some v ->
       h' !! k = Some (if (i <=? k)%nat
                       then match t !! (k - i)%nat with
                            | Some row =>
                                fold_right Z.max v (map (fun c => fst (ReqHeight c)) row)
                            | None => v
                            end
                       else v)).
Proof.
  induction t as [|row t IH]; intros i w h Hw Hh.
  - exists w, h. simpl. repeat split; try reflexivity.
    + intros k v Hk. exact Hk.
    + intros k v Hk. rewrite Hk. destruct (i <=? k)%nat; [|reflexivity].
      destruct (k - i)%nat; reflexivity.
  - inversion Hw as [|? ? Hrow Hrest]; subst. simpl length in Hh.
    destruct (lookup_lt_is_Some_2 h i ltac:(lia)) as [hi Hhi].
    destruct (gridRow_sizes row i 0 w h hi ltac:(simpl; lia) Hhi) as (w1 & Hr & Hl1 & Hk1).
    cbn [gridSizes]. rewrite Hr. cbn [bind fst snd].
    destruct (IH (S i) w1
                 (<[i := fold_right Z.max hi (map (fun c => fst (ReqHeight c)) row)]> h))
      as (w' & h' & Hs & Hlw & Hlh & Hkw & Hkh).
    { rewrite Hl1. exact Hrest. }
    { rewrite length_insert. lia. }
    exists w', h'. split; [exact Hs|]. split; [congruence|].
    split; [rewrite Hlh; apply length_insert|]. split.
    + intros k v Hv. rewrite gridColumn_cons.
      pose proof (Hk1 k v Hv) as H1. simpl in H1. rewrite Nat.sub_0_r in H1.
      rewrite (Hkw k _ H1). destruct (row !! k) as [c|]; [|reflexivity].
      simpl. rewrite fold_max_acc. reflexivity.
    + intros k v Hv. destruct (Nat.eq_dec k i) as [->|Hne].
      * rewrite Hv in Hhi. injection Hhi as <-.
        rewrite (Hkh i (fold_right Z.max v (map (fun c => fst (ReqHeight c)) row))).
        -- destruct (Nat.leb_spec (S i) i); [lia|].
           rewrite Nat.leb_refl, Nat.sub_diag. reflexivity.
        -- apply list_lookup_insert_eq. apply lookup_lt_is_Some_1. eauto.
      * rewrite (Hkh k v) by (rewrite list_lookup_insert_ne by lia; exact Hv).
        destruct (Nat.leb_spec (S i) k), (Nat.leb_spec i k); try lia; [|reflexivity].
        replace (k - i)%nat with (S (k - S i)) by lia. reflexivity.
Qed.

Lemma gridCols_acc (t : list (list Widget)) : forall n,
  (n <= fold_left (fun cols row => if (cols <? length row)%nat then length row else cols)
                  t n)%nat /\
  Forall (fun row : list Widget =>
            (length row <=
             fold_left (fun cols row => if (cols <? length row)%nat then length row else cols)
                       t n)%nat) t.
Proof.
  induction t as [|row t IH]; intros n; simpl; [split; [lia|constructor]|].
  destruct (IH (if (n <? length row)%nat then length row else n)) as [H1 H2].
  destruct (Nat.ltb_spec n (length row)); (split; [lia|constructor; [lia|exact H2]]).
Qed.

(** X18.  The first passes of [Grid.Draw] never index out of range, and
    give each column the greatest minimum width of its cells, counting
    only the rows long enough to have a cell in the column, and each row
    the greatest minimum height of its own cells (both from 0 on). *)
Theorem Grid_sizes (t : list (list Widget)) :
  exists ws hs,
    gridSizes t 0 (replicate (gridCols t) 0) (replicate (length t) 0) = Ok (ws, hs) /\
    length ws = gridCols t /\ length hs = length t /\
    (forall j, (j < gridCols t)%nat ->
       ws !! j = Some (maxOver (map (fun c => fst (ReqWidth c)) (gridColumn t j)))) /\
    (forall i row, t !! i = Some row ->
       hs !! i = Some (maxOver (map (fun c => fst (ReqHeight c)) row))).
Proof.
  destruct (gridSizes_sizes t 0 (replicate (gridCols t) 0) (replicate (length t) 0))
    as (ws & hs & Hs & Hlw & Hlh & Hkw & Hkh).
  { rewrite length_replicate. apply (gridCols_acc t 0). }
  { rewrite length_replicate. lia. }
  exists ws, hs. split; [exact Hs|].
  rewrite length_replicate in Hlw, Hlh. split; [exact Hlw|]. split; [exact Hlh|]. split.
  - intros j Hj. apply Hkw. apply lookup_replicate_2. exact Hj.
  - intros i row Hrow.
    rewrite (Hkh i 0).
    + simpl. rewrite Nat.sub_0_r, Hrow. reflexivity.
    + apply lookup_replicate_2. apply lookup_lt_is_Some_1. eauto.
Qed.

(** ** What a pen is after a call *)

(** X19.  [Draw] never moves or resizes the pen it is given: whatever the
    widget, the pen it leaves has the rectangle it had; only the cursor
    (by a label) and the colours (by a tint) may have changed. *)
Theorem Draw_keeps_rectangle (w : Widget) :
  forall (fuel : nat) (p : Pen) (scr : Screen) (r : option Pen) (scr' : Screen),
    Draw fuel w (Some p) scr = Ok (r, scr') ->
    exists p', r = Some p' /\
      pen_x p' = pen_x p /\ pen_y p' = pen_y p /\
      pen_w p' = pen_w p /\ pen_h p' = pen_h p.
Proof.
  induction w as [t|a b c d|fg bg w IH|t|t|t]; intros fuel p scr r scr' H.
  - simpl in H. unfold Print in H.
    destruct (printLoop fuel p scr t 0) as [[p1 scr1]| |] eqn:E; simpl in H;
      try discriminate.
    injection H as <- <-. apply printLoop_keeps in E as (E & _).
    exists p1. rewrite E. simpl. auto.
  - simpl in H. injection H as <- <-. exists p. auto.
  - simpl in H.
    destruct (negb (fg =? 0)), (negb (bg =? 0)); simpl in H;
      apply IH in H as (p' & -> & H); exists p'; simpl in H; auto.
  - rewrite Draw_Row in H. destruct (fitSize _ _ _ _); [|discriminate].
    destruct (Row_children _ _ _ _ _ _ _); simpl in H; try discriminate.
    injection H as <- <-. exists p. auto.
  - rewrite Draw_Column in H. destruct (fitSize _ _ _ _); [|discriminate].
    destruct (Column_children _ _ _ _ _ _ _); simpl in H; try discriminate.
    injection H as <- <-. exists p. auto.
  - rewrite Draw_Grid in H. destruct (gridSizes _ _ _ _); simpl in H; try discriminate.
    destruct (Grid_rows _ _ _ _ _ _ _ _); simpl in H; try discriminate.
    injection H as <- <-. exists p. auto.
Qed.

Lemma Draw_keeps_rectangle_witness :
  Draw 3 (Tint 5 0 (Label "hi")) (Some (mkPen 1 0 3 1 0 0 0 0)) (blankScreen 4 1 noCell)
  = Ok (Some (mkPen 1 0 3 1 0 1 5 0),
        mkScreen 4 1 [mkCell 0 0 0; mkCell 104 5 0; mkCell 105 5 0; mkCell 0 0 0]) /\
  exists p', Some (mkPen 1 0 3 1 0 1 5 0) = Some p' /\
    pen_x p' = 1 /\ pen_y p' = 0 /\ pen_w p' = 3 /\ pen_h p' = 1.
Proof.
  assert (H : Draw 3 (Tint 5 0 (Label "hi")) (Some (mkPen 1 0 3 1 0 0 0 0))
                   (blankScreen 4 1 noCell)
              = Ok (Some (mkPen 1 0 3 1 0 1 5 0),
                    mkScreen 4 1 [mkCell 0 0 0; mkCell 104 5 0; mkCell 105 5 0;
                                  mkCell 0 0 0]))
    by (vm_compute; reflexivity).
  split; [exact H|].
  exact (Draw_keeps_rectangle _ 3 (mkPen 1 0 3 1 0 0 0 0) _ _ _ H).
Defined.

(** X20.  What [printRow] returns is the width that was left on the row,
    [p.w - p.dx], however short the text: that width, never negative, is
    also what the cursor's column is moved by, which puts it at the end of
    the row; and for a text that is not empty the width is not 0. *)
Theorem printRow_returns_row_width (p : Pen) (scr : Screen) (s : string)
    (k : Z) (r : option Pen) (scr' : Screen) :
  printRow (Some p) scr s = Ok (k, r, scr') ->
  k = pen_w p -! pen_dx p /\ 0 <= k /\
  r = Some (set_cursor p (pen_dx p +! k) (pen_dy p)) /\
  (s <> EmptyString -> 1 <= k).
Proof.
  unfold printRow. intros H.
  destruct (printRow_at p scr s) as [[[k1 p1] scr1]| |] eqn:E; simpl in H;
    try discriminate.
  injection H as <- <- <-.
  apply printRow_at_ok in E as (E1 & E2 & E3 & E4).
  rewrite E3. auto.
Qed.

Lemma printRow_returns_row_width_witness :
  printRow (Some (mkPen 0 0 5 1 0 0 0 0)) (blankScreen 5 1 noCell) "hi"
  = Ok (5, Some (mkPen 0 0 5 1 5 0 0 0), mkScreen 5 1 (cellsOf [104; 105; 0; 0; 0])) /\
  5 = 5 -! 0 /\ 0 <= 5 /\
  Some (mkPen 0 0 5 1 5 0 0 0)
  = Some (set_cursor (mkPen 0 0 5 1 0 0 0 0) (0 +! 5) 0) /\
  ("hi"%string <> EmptyString -> 1 <= 5).
Proof.
  assert (H : printRow (Some (mkPen 0 0 5 1 0 0 0 0)) (blankScreen 5 1 noCell) "hi"
              = Ok (5, Some (mkPen 0 0 5 1 5 0 0 0),
                    mkScreen 5 1 (cellsOf [104; 105; 0; 0; 0])))
    by (vm_compute; reflexivity).
  split; [exact H|].
  exact (printRow_returns_row_width (mkPen 0 0 5 1 0 0 0 0) _ "hi" 5 _ _ H).
Defined.

(** X21.  The pen that [Clip] returns never has a negative origin or a
    negative extent; it has the extent that was asked for, the cursor at
    its own origin and the colours of the pen it was clipped from, and
    its far edges are not beyond that pen's, as [int]s. *)
Theorem Clip_result (p o : Pen) (x y w h : Z) :
  Clip (Some p) x y w h = Some o ->
  0 <= pen_x o /\ 0 <= pen_y o /\ 0 <= pen_w o /\ 0 <= pen_h o /\
  pen_w o = w /\ pen_h o = h /\ pen_dx o = 0 /\ pen_dy o = 0 /\
  pen_fg o = pen_fg p /\ pen_bg o = pen_bg p /\
  pen_x o +! pen_w o <= pen_x p +! pen_w p /\
  pen_y o +! pen_h o <= pen_y p +! pen_h p.
Proof.
  unfold Clip. intros H.
  destruct (Z.ltb_spec (pen_x p +! x) 0); [discriminate|].
  destruct (Z.ltb_spec (pen_y p +! y) 0); [discriminate|].
  destruct (Z.ltb_spec w 0); [discriminate|].
  destruct (Z.ltb_spec h 0); [discriminate|].
  destruct (Z.gtb_spec (pen_x p +! x +! w) (pen_x p +! pen_w p)); [discriminate|].
  destruct (Z.gtb_spec (pen_y p +! y +! h) (pen_y p +! pen_h p)); [discriminate|].
  injection H as <-. simpl. repeat split; try reflexivity; lia.
Qed.

Lemma Clip_result_witness :
  let o := mkPen 70 0 10 24 0 0 3 4 in
  Clip (Some pen80) 70 0 10 24 = Some o /\
  0 <= pen_x o /\ 0 <= pen_y o /\ 0 <= pen_w o /\ 0 <= pen_h o /\
  pen_w o = 10 /\ pen_h o = 24 /\ pen_dx o = 0 /\ pen_dy o = 0 /\
  pen_fg o = pen_fg pen80 /\ pen_bg o = pen_bg pen80 /\
  pen_x o +! pen_w o <= pen_x pen80 +! pen_w pen80 /\
  pen_y o +! pen_h o <= pen_y pen80 +! pen_h pen80.
Proof.
  assert (H : Clip (Some pen80) 70 0 10 24 = Some (mkPen 70 0 10 24 0 0 3 4))
    by reflexivity.
  split; [exact H|]. exact (Clip_result pen80 _ 70 0 10 24 H).
Defined.

(** ** Drawing terminates *)

Lemma printLoop_more_fuel (f : nat) : forall f' p scr s n,
  printLoop f p scr s n <> OutOfFuel -> (f <= f')%nat ->
  printLoop f' p scr s n = printLoop f p scr s n.
Proof.
  induction f as [|f IH]; intros f' p scr s n H Hle; [simpl in H; congruence|].
  destruct f' as [|f']; [lia|]. simpl in *.
  destruct (_ && _); [|reflexivity].
  destruct (str_from s n) as [rest| |]; simpl in *; try reflexivity.
  destruct (printRow_at p scr rest) as [[[k p1] scr1]| |]; simpl in *; try reflexivity.
  apply IH; [exact H|lia].
Qed.

Lemma fitSize_more_fuel {W : Type} (sel : W -> Z * Z) (f f' : nat) (n : Z)
    (t : list W) (sz : list Z) :
  fitSize sel f n t = Some sz -> (f <= f')%nat -> fitSize sel f' n t = Some sz.
Proof.
  unfold fitSize. destruct (fitInit sel n t) as [[n' sz0] mx0].
  apply fitLoop_fuel_mono.
Qed.

Lemma fitSize_some {W : Type} (sel : W -> Z * Z) (n : Z) (t : list W) :
  Z.of_nat (length t) <= Int.max_int -> exists f sz, fitSize sel f n t = Some sz.
Proof.
  intros Hlen. unfold fitSize.
  pose proof (fitInit_length sel t n) as [Hsz _].
  destruct t as [|w t].
  - exists 2%nat, []. simpl. destruct (n >? 0); reflexivity.
  - pose proof (fitInit_in_range sel (w :: t) n ltac:(discriminate)) as Hr.
    destruct (fitInit sel n (w :: t)) as [[n' sz] mx]. simpl in Hsz, Hr.
    destruct (fitLoop_terminates (fitNeed n' true) mx sz n' true Hr) as (r & Hr1 & _).
    + rewrite Hsz. exact Hlen.
    + lia.
    + eauto.
Qed.

Section MoreFuel.

Variables draw draw' : Widget -> option Pen -> Screen -> outcome (option Pen * Screen).

Lemma Row_children_agree (p : option Pen) (h : Z) (t : list Widget) : Forall (agree draw draw') t ->
  forall sz x scr, Row_children draw p h t sz x scr <> OutOfFuel ->
    Row_children draw' p h t sz x scr = Row_children draw p h t sz x scr.
Proof.
  induction 1 as [|c t Hc _ IH]; intros sz x scr H; simpl in *; [reflexivity|].
  destruct sz as [|tw sz]; [reflexivity|].
  rewrite Hc by (intros E; rewrite E in H; apply H; reflexivity).
  destruct (draw c (Clip p x 0 tw h) scr) as [[r scr1]| |]; simpl in *;
    [apply IH; exact H|reflexivity|reflexivity].
Qed.

Lemma Column_children_agree (p : option Pen) (w : Z) (t : list Widget) : Forall (agree draw draw') t ->
  forall sz y scr, Column_children draw p w t sz y scr <> OutOfFuel ->
    Column_children draw' p w t sz y scr = Column_children draw p w t sz y scr.
Proof.
  induction 1 as [|c t Hc _ IH]; intros sz y scr H; simpl in *; [reflexivity|].
  destruct sz as [|th sz]; [reflexivity|].
  rewrite Hc by (intros E; rewrite E in H; apply H; reflexivity).
  destruct (draw c (Clip p 0 y w th) scr) as [[r scr1]| |]; simpl in *;
    [apply IH; exact H|reflexivity|reflexivity].
Qed.

Lemma Grid_cols_agree (p : option Pen) (w : list Z) (y hi : Z) (row : list Widget) :
  Forall (agree draw draw') row ->
  forall j x scr, Grid_cols draw p w y hi row j x scr <> OutOfFuel ->
    Grid_cols draw' p w y hi row j x scr = Grid_cols draw p w y hi row j x scr.
Proof.
  induction 1 as [|c row Hc _ IH]; intros j x scr H; simpl in *; [reflexivity|].
  destruct (index w j) as [wj| |]; simpl in *; try reflexivity.
  rewrite Hc by (intros E; rewrite E in H; apply H; reflexivity).
  destruct (draw c (Clip p x y wj hi) scr) as [[r scr1]| |]; simpl in *;
    [apply IH; exact H|reflexivity|reflexivity].
Qed.

Lemma Grid_rows_agree (p : option Pen) (w h : list Z) (t : list (list Widget)) :
  Forall (Forall (agree draw draw')) t ->
  forall i y scr, Grid_rows draw p w h t i y scr <> OutOfFuel ->
    Grid_rows draw' p w h t i y scr = Grid_rows draw p w h t i y scr.
Proof.
  induction 1 as [|row t Hrow _ IH]; intros i y scr H; simpl in *; [reflexivity|].
  destruct (index h i) as [hi| |]; simpl in *; try reflexivity.
  rewrite (Grid_cols_agree p w y hi row Hrow)
    by (intros E; rewrite E in H; apply H; reflexivity).
  destruct (Grid_cols draw p w y hi row 0%nat 0 scr) as [scr1| |]; simpl in *;
    [apply IH; exact H|reflexivity|reflexivity].
Qed.

End MoreFuel.

(** Where [Draw] has fuel enough, more fuel gives the same result. *)
Lemma Draw_more_fuel (w : Widget) :
  forall (f f' : nat) (p : option Pen) (scr : Screen),
    Draw f w p scr <> OutOfFuel -> (f <= f')%nat ->
    Draw f' w p scr = Draw f w p scr.
Proof.
  induction w as [t|a b c d|fg bg w IH|t IH|t IH|t IH] using Widget_induction;
    intros f f' p scr H Hle.
  - simpl in *. unfold Print in *. destruct p as [p|]; [|reflexivity].
    rewrite (printLoop_more_fuel f f'); [reflexivity| |exact Hle].
    intros E. rewrite E in H. apply H. reflexivity.
  - reflexivity.
  - simpl in *. apply IH; assumption.
  - rewrite !Draw_Row in *.
    destruct (fitSize ReqWidth f (Width p) t) as [sz|] eqn:E; [|congruence].
    rewrite (fitSize_more_fuel _ _ _ _ _ _ E Hle).
    rewrite (Row_children_agree (Draw f) (Draw f')); [reflexivity| |].
    + eapply List.Forall_impl; [|exact IH]. intros c Hc p0 s0 H0. apply Hc; assumption.
    + intros E'. rewrite E' in H. apply H. reflexivity.
  - rewrite !Draw_Column in *.
    destruct (fitSize ReqHeight f (Height p) t) as [sz|] eqn:E; [|congruence].
    rewrite (fitSize_more_fuel _ _ _ _ _ _ E Hle).
    rewrite (Column_children_agree (Draw f) (Draw f')); [reflexivity| |].
    + eapply List.Forall_impl; [|exact IH]. intros c Hc p0 s0 H0. apply Hc; assumption.
    + intros E'. rewrite E' in H. apply H. reflexivity.
  - rewrite !Draw_Grid in *.
    destruct (gridSizes _ _ _ _) as [[ws hs]| |]; simpl in *; try reflexivity.
    rewrite (Grid_rows_agree (Draw f) (Draw f')); [reflexivity| |].
    + eapply List.Forall_impl; [|exact IH]. intros row Hrow.
      eapply List.Forall_impl; [|exact Hrow]. intros c Hc p0 s0 H0. apply Hc; assumption.
    + intros E'. rewrite E' in H. apply H. reflexivity.
Qed.

Lemma Forall_all {A : Type} (P : A -> Prop) (l : list A) :
  (forall a, P a) -> Forall P l.
Proof. intros H. induction l; constructor; auto. Qed.

Lemma Draw_agree (f f' : nat) (t : list Widget) : (f <= f')%nat ->
  Forall (fun c => forall p scr, Draw f c p scr <> OutOfFuel ->
                                 Draw f' c p scr = Draw f c p scr) t.
Proof. intros Hle. apply Forall_all. intros c p scr H. apply Draw_more_fuel; assumption. Qed.

(** The property of a widget that there is fuel for drawing it, with
    whatever pen on whatever screen. *)
Lemma Row_children_has_fuel (p : option Pen) (h : Z) (t : list Widget) :
  Forall (fun c => forall p scr, exists f, Draw f c p scr <> OutOfFuel) t ->
  forall sz x scr, exists f, Row_children (Draw f) p h t sz x scr <> OutOfFuel.
Proof.
  induction 1 as [|c t Hc _ IH]; intros sz x scr.
  - exists 0%nat. discriminate.
  - destruct sz as [|tw sz]; [exists 0%nat; discriminate|].
    destruct (Hc (Clip p x 0 tw h) scr) as [fc Hfc].
    destruct (Draw fc c (Clip p x 0 tw h) scr) as [[r scr1]| |] eqn:E; [| |congruence].
    + destruct (IH sz (x +! tw) scr1) as [fr Hfr].
      exists (Nat.max fc fr). simpl.
      rewrite (Draw_more_fuel c fc (Nat.max fc fr)), E by (try rewrite E; try discriminate; lia).
      simpl.
      rewrite (Row_children_agree (Draw fr) (Draw (Nat.max fc fr)));
        [exact Hfr | apply Draw_agree; lia | exact Hfr].
    + exists fc. simpl. rewrite E. discriminate.
Qed.

Lemma Column_children_has_fuel (p : option Pen) (w : Z) (t : list Widget) :
  Forall (fun c => forall p scr, exists f, Draw f c p scr <> OutOfFuel) t ->
  forall sz y scr, exists f, Column_children (Draw f) p w t sz y scr <> OutOfFuel.
Proof.
  induction 1 as [|c t Hc _ IH]; intros sz y scr.
  - exists 0%nat. discriminate.
  - destruct sz as [|th sz]; [exists 0%nat; discriminate|].
    destruct (Hc (Clip p 0 y w th) scr) as [fc Hfc].
    destruct (Draw fc c (Clip p 0 y w th) scr) as [[r scr1]| |] eqn:E; [| |congruence].
    + destruct (IH sz (y +! th) scr1) as [fr Hfr].
      exists (Nat.max fc fr). simpl.
      rewrite (Draw_more_fuel c fc (Nat.max fc fr)), E by (try rewrite E; try discriminate; lia).
      simpl.
      rewrite (Column_children_agree (Draw fr) (Draw (Nat.max fc fr)));
        [exact Hfr | apply Draw_agree; lia | exact Hfr].
    + exists fc. simpl. rewrite E. discriminate.
Qed.

Lemma Grid_cols_has_fuel (p : option Pen) (w : list Z) (y hi : Z) (row : list Widget) :
  Forall (fun c => forall p scr, exists f, Draw f c p scr <> OutOfFuel) row ->
  forall j x scr, exists f, Grid_cols (Draw f) p w y hi row j x scr <> OutOfFuel.
Proof.
  induction 1 as [|c row Hc _ IH]; intros j x scr.
  - exists 0%nat. discriminate.
  - simpl. destruct (index w j) as [wj| |] eqn:Ei; simpl;
      [|exists 0%nat; discriminate|exists 0%nat; unfold index in Ei;
                                   destruct (w !! j); discriminate].
    destruct (Hc (Clip p x y wj hi) scr) as [fc Hfc].
    destruct (Draw fc c (Clip p x y wj hi) scr) as [[r scr1]| |] eqn:E; [| |congruence].
    + destruct (IH (S j) (x +! (wj +! 1)) scr1) as [fr Hfr].
      exists (Nat.max fc fr).
      rewrite (Draw_more_fuel c fc (Nat.max fc fr)), E by (try rewrite E; try discriminate; lia).
      simpl.
      rewrite (Grid_cols_agree (Draw fr) (Draw (Nat.max fc fr)));
        [exact Hfr | apply Draw_agree; lia | exact Hfr].
    + exists fc. rewrite E. discriminate.
Qed.

Lemma Grid_rows_has_fuel (p : option Pen) (w h : list Z) (t : list (list Widget)) :
  Forall (Forall (fun c => forall p scr, exists f, Draw f c p scr <> OutOfFuel)) t ->
  forall i y scr, exists f, Grid_rows (Draw f) p w h t i y scr <> OutOfFuel.
Proof.
  induction 1 as [|row t Hrow _ IH]; intros i y scr.
  - exists 0%nat. discriminate.
  - simpl. destruct (index h i) as [hi| |] eqn:Ei; simpl;
      [|exists 0%nat; discriminate|exists 0%nat; unfold index in Ei;
                                   destruct (h !! i); discriminate].
    destruct (Grid_cols_has_fuel p w y hi row Hrow 0%nat 0 scr) as [fc Hfc].
    destruct (Grid_cols (Draw fc) p w y hi row 0%nat 0 scr) as [scr1| |] eqn:E;
      [| |congruence].
    + destruct (IH (S i) (y +! hi) scr1) as [fr Hfr].
      exists (Nat.max fc fr).
      rewrite (Grid_cols_agree (Draw fc) (Draw (Nat.max fc fr)));
        [|apply Draw_agree; lia|rewrite E; discriminate].
      rewrite E. simpl.
      rewrite (Grid_rows_agree (Draw fr) (Draw (Nat.max fc fr)));
        [exact Hfr | apply Forall_all; intros r0; apply Draw_agree; lia | exact Hfr].
    + exists fc. rewrite E. discriminate.
Qed.

Lemma gridSizes_ok (t : list (list Widget)) :
  exists wh, gridSizes t 0 (replicate (gridCols t) 0) (replicate (length t) 0) = Ok wh.
Proof.
  destruct (gridSizes_sizes t 0 (replicate (gridCols t) 0) (replicate (length t) 0))
    as (ws & hs & Hs & _).
  - rewrite length_replicate. apply (gridCols_acc t 0).
  - rewrite length_replicate. lia.
  - eauto.
Qed.

Lemma Draw_has_fuel (w : Widget) :
  sliced w -> forall (p : option Pen) (scr : Screen),
    exists f, Draw f w p scr <> OutOfFuel.
Proof.
  induction w as [t|a b c d|fg bg w IH|t IH|t IH|t IH] using Widget_induction;
    intros Hs p scr.
  - exists (S (String.length t)). simpl. unfold Print. destruct p as [p|]; [|discriminate].
    pose proof (printLoop_never_out_of_fuel (S (String.length t)) p scr t 0) as Hn.
    destruct (printLoop _ p scr t 0); simpl; try discriminate.
    exfalso. apply Hn; [int_unfold; lia| |reflexivity].
    unfold printNeed, len. simpl. lia.
  - exists 0%nat. discriminate.
  - inversion Hs; subst. simpl. apply IH. assumption.
  - inversion Hs as [| | |? Hlen Hall| |]; subst.
    destruct (fitSize_some ReqWidth (Width p) t Hlen) as (f1 & sz & Hf1).
    destruct (Row_children_has_fuel p (Height p) t) with (sz := sz) (x := 0) (scr := scr)
      as [f2 Hf2].
    { rewrite List.Forall_forall in *. intros c Hc. apply IH; auto. }
    exists (Nat.max f1 f2). rewrite Draw_Row.
    rewrite (fitSize_more_fuel _ _ _ _ _ _ Hf1) by lia.
    rewrite (Row_children_agree (Draw f2) (Draw (Nat.max f1 f2)));
      [|apply Draw_agree; lia|exact Hf2].
    destruct (Row_children _ _ _ _ _ _ _); simpl; congruence.
  - inversion Hs as [| | | |? Hlen Hall|]; subst.
    destruct (fitSize_some ReqHeight (Height p) t Hlen) as (f1 & sz & Hf1).
    destruct (Column_children_has_fuel p (Width p) t) with (sz := sz) (y := 0) (scr := scr)
      as [f2 Hf2].
    { rewrite List.Forall_forall in *. intros c Hc. apply IH; auto. }
    exists (Nat.max f1 f2). rewrite Draw_Column.
    rewrite (fitSize_more_fuel _ _ _ _ _ _ Hf1) by lia.
    rewrite (Column_children_agree (Draw f2) (Draw (Nat.max f1 f2)));
      [|apply Draw_agree; lia|exact Hf2].
    destruct (Column_children _ _ _ _ _ _ _); simpl; congruence.
  - inversion Hs as [| | | | |? Hall]; subst.
    destruct (gridSizes_ok t) as [[ws hs] Hg].
    destruct (Grid_rows_has_fuel p ws hs t) with (i := 0%nat) (y := 0) (scr := scr)
      as [f Hf].
    { rewrite List.Forall_forall in *. intros row Hrow.
      specialize (IH row Hrow). specialize (Hall row Hrow).
      rewrite List.Forall_forall in *. intros c Hc. apply IH; auto. }
    exists f. rewrite Draw_Grid, Hg. simpl.
    destruct (Grid_rows _ _ _ _ _ _ _ _); simpl; congruence.
Qed.

(** X22.  Drawing terminates: for a tree of widgets whose rows and columns
    have a length that is an [int], with whatever pen on whatever screen,
    there is an amount of fuel from which on [Draw] never runs out of it
    and gives one and the same result, a return or a panic. *)
Theorem Draw_terminates (w : Widget) (p : option Pen) (scr : Screen) :
  sliced w ->
  exists (f0 : nat) (res : outcome (option Pen * Screen)),
    res <> OutOfFuel /\
    forall f, (f0 <= f)%nat -> Draw f w p scr = res.
Proof.
  intros Hs. destruct (Draw_has_fuel w Hs p scr) as [f0 Hf0].
  exists f0, (Draw f0 w p scr). split; [exact Hf0|].
  intros f Hle. apply Draw_more_fuel; assumption.
Qed.

Lemma Draw_terminates_witness :
  sliced (Grid [[Label "a"; Column [Label "b"; Blank 0 9 0 9]]; [Row [Label "cd"]]]) /\
  exists (f0 : nat) (res : outcome (option Pen * Screen)),
    res <> OutOfFuel /\
    forall f, (f0 <= f)%nat ->
      Draw f (Grid [[Label "a"; Column [Label "b"; Blank 0 9 0 9]]; [Row [Label "cd"]]])
           (Some pen80) (blankScreen 80 24 noCell) = res.
Proof.
  assert (H : sliced (Grid [[Label "a"; Column [Label "b"; Blank 0 9 0 9]];
                            [Row [Label "cd"]]])).
  { repeat (constructor; try (vm_compute; discriminate)). }
  split; [exact H|]. exact (Draw_terminates _ (Some pen80) (blankScreen 80 24 noCell) H).
Defined.
